(** * torf-cli configuration files: reading, validating, combining

    A shallow embedding of [torfcli/_configfile.py] and the properties of
    its three functions [read], [validate] and [combine].

    The file has three parts: the embedding of the source, the
    vocabulary of the statements, and the lemmas and theorems.

    Conventions of the embedding.
    - A Python [str] is the list of its code points, each below 256
      ([list ascii]); literals are written [!"..."].
    - A Python [dict] is an association list in insertion order with
      pairwise distinct keys; [set_item] is [d[k] = v].  The order is
      kept because [validate] raises the error of the first entry it
      refuses.
    - A raised exception is the [Err] side of [result]. *)

From Stdlib Require Import List Ascii String Bool Arith Lia.
From Stdlib Require Import ZArith DecimalString.
Import ListNotations.

Set Warnings "-register-all".

(* ================================================================= *)
(** ** Python strings *)

Definition str := list ascii.

Notation "! s" := (list_ascii_of_string s) (at level 1, format "! s").

Definition str_eqb (a b : str) : bool :=
  if list_eq_dec ascii_dec a b then true else false.

Definition dquote : ascii := "034"%char.
Definition squote : ascii := "039"%char.
Definition newline : ascii := "010"%char.
Definition equals : ascii := "061"%char.

(** [str.isspace] on one code point below 256, which is also the class
    [\s] of [re] on [str] patterns: U+0009..U+000D, U+001C..U+001F,
    U+0020, U+0085 and U+00A0. *)
Definition isspace (c : ascii) : bool :=
  let n := nat_of_ascii c in
  ((9 <=? n) && (n <=? 13)) || ((28 <=? n) && (n <=? 31))
  || (n =? 32) || (n =? 133) || (n =? 160).

Fixpoint lstrip (s : str) : str :=
  match s with
  | c :: s' => if isspace c then lstrip s' else s
  | [] => []
  end.

(** [s.strip()] *)
Definition strip (s : str) : str := rev (lstrip (rev (lstrip s))).

(** [s[1:-1]] *)
Definition slice_1_m1 (s : str) : str := removelast (tl s).

(** [sep.join(parts)] *)
Fixpoint join (sep : str) (parts : list str) : str :=
  match parts with
  | [] => []
  | [p] => p
  | p :: ps => p ++ sep ++ join sep ps
  end.

(* ================================================================= *)
(** ** The fragment of [re] used by the two patterns

    A backtracking matcher in continuation-passing style: alternatives
    are tried in the order of Python's engine (greedy repetition first
    takes as much as it can and gives back one character at a time), and
    the first success is the match. *)

Inductive cclass : Type :=
| Space      (* \s *)
| NonSpace   (* \S *)
| Dot.       (* .  : any character except a newline *)

Definition in_class (cl : cclass) (c : ascii) : bool :=
  match cl with
  | Space => isspace c
  | NonSpace => negb (isspace c)
  | Dot => negb (Ascii.eqb c newline)
  end.

Inductive regex : Type :=
| Bol                        (* ^ *)
| Eol                        (* $ *)
| Chr (c : ascii)            (* a literal character *)
| Star (cl : cclass)         (* cl* *)
| Plus (cl : cclass)         (* cl+ *)
| Group (r : regex)          (* ( r ) *)
| Seq (r1 r2 : regex).       (* r1 r2 *)

Declare Scope regex_scope.
Delimit Scope regex_scope with re.
Bind Scope regex_scope with regex.
Infix ">>" := Seq (at level 61, right associativity) : regex_scope.

(** A continuation receives the position reached, the rest of the
    subject and the groups closed so far. *)
Definition kont := nat -> str -> list str -> option (list str).

Fixpoint star (cl : cclass) (pos : nat) (s : str) (caps : list str)
  (k : kont) : option (list str) :=
  match s with
  | c :: s' =>
      if in_class cl c then
        match star cl (S pos) s' caps k with
        | Some m => Some m
        | None => k pos s caps
        end
      else k pos s caps
  | [] => k pos s caps
  end.

Fixpoint rmatch (r : regex) (pos : nat) (s : str) (caps : list str)
  (k : kont) : option (list str) :=
  match r with
  | Bol => if pos =? 0 then k pos s caps else None
  | Eol =>
      match s with
      | [] => k pos s caps
      | [c] => if Ascii.eqb c newline then k pos s caps else None
      | _ => None
      end
  | Chr a =>
      match s with
      | c :: s' => if Ascii.eqb c a then k (S pos) s' caps else None
      | [] => None
      end
  | Star cl => star cl pos s caps k
  | Plus cl =>
      match s with
      | c :: s' => if in_class cl c then star cl (S pos) s' caps k else None
      | [] => None
      end
  | Group r' =>
      rmatch r' pos s caps
        (fun pos' s' caps' => k pos' s' (caps' ++ [firstn (pos' - pos) s]))
  | Seq r1 r2 =>
      rmatch r1 pos s caps (fun pos' s' caps' => rmatch r2 pos' s' caps' k)
  end.

(** [pattern.match(s)]: the groups of the match, or [None]. *)
Definition re_match (r : regex) (s : str) : option (list str) :=
  rmatch r 0 s [] (fun _ _ caps => Some caps).

(** [m.group(i)] for [i >= 1] *)
Definition group (m : list str) (i : nat) : str := nth (i - 1) m [].

(** [_re_bool]: the pattern  ^ (\S+) $  (tokens spaced out). *)
Definition _re_bool : regex :=
  (Bol >> Group (Plus NonSpace) >> Eol)%re.

(** [_re_assign]: the pattern  ^ (\S+) \s* = \s* ( .* ) \s* $  (tokens
    spaced out). *)
Definition _re_assign : regex :=
  (Bol >> Group (Plus NonSpace) >> Star Space >> Chr equals >> Star Space
       >> Group (Star Dot) >> Star Space >> Eol)%re.

(* ================================================================= *)
(** ** Python values, dictionaries and exceptions *)

Inductive value : Type :=
| VBool (b : bool)
| VStr (s : str)
| VList (items : list value)
| VDict (d : list (str * value)).

Definition dict := list (str * value).

Section Assoc.
Variable V : Type.

(** [d[k]], and [k in d] when the result is [Some _] *)
Fixpoint lookup (k : str) (d : list (str * V)) : option V :=
  match d with
  | [] => None
  | (k', v) :: d' => if str_eqb k k' then Some v else lookup k d'
  end.

(** [d[k] = v]: a present key keeps its place, a new key goes last *)
Fixpoint set_item (d : list (str * V)) (k : str) (v : V) : list (str * V) :=
  match d with
  | [] => [(k, v)]
  | (k', v') :: d' =>
      if str_eqb k k' then (k', v) :: d' else (k', v') :: set_item d' k v
  end.

Definition keys (d : list (str * V)) : list str := map fst d.
End Assoc.

Arguments lookup {V} k d.
Arguments set_item {V} d k v.
Arguments keys {V} d.

Inductive pytype : Type := TBool | TStr | TList | TDict.

(** [type(v)] *)
Definition type_of (v : value) : pytype :=
  match v with
  | VBool _ => TBool
  | VStr _ => TStr
  | VList _ => TList
  | VDict _ => TDict
  end.

Definition pytype_eqb (a b : pytype) : bool :=
  match a, b with
  | TBool, TBool | TStr, TStr | TList, TList | TDict, TDict => true
  | _, _ => false
  end.

(** [a == b] on values: lists compare item by item, dictionaries
    compare as sets of items. *)
Fixpoint py_eq (a b : value) {struct a} : bool :=
  match a, b with
  | VBool x, VBool y => Bool.eqb x y
  | VStr x, VStr y => str_eqb x y
  | VList xs, VList ys =>
      (fix go (xs ys : list value) : bool :=
         match xs, ys with
         | [], [] => true
         | x :: xs', y :: ys' => py_eq x y && go xs' ys'
         | _, _ => false
         end) xs ys
  | VDict d, VDict e =>
      (List.length d =? List.length e)
      && (fix go (d : list (str * value)) : bool :=
            match d with
            | [] => true
            | (k, v) :: d' =>
                match lookup k e with
                | Some w => py_eq v w
                | None => false
                end && go d'
            end) d
  | _, _ => false
  end.

(** [bool(v)] *)
Definition truthy (v : value) : bool :=
  match v with
  | VBool b => b
  | VStr s => negb (str_eqb s [])
  | VList l => match l with [] => false | _ => true end
  | VDict d => match d with [] => false | _ => true end
  end.

(** *** [repr] *)

Definition hexdigit (n : nat) : ascii :=
  nth n (!"0123456789abcdef") "0"%char.

Definition backslash : ascii := "092"%char.

Definition has (c : ascii) (s : str) : bool := existsb (Ascii.eqb c) s.

(** One character of [repr(s)] between the quotes [q]. *)
Definition repr_char (q c : ascii) : str :=
  let n := nat_of_ascii c in
  if Ascii.eqb c q || Ascii.eqb c backslash then [backslash; c]
  else if n =? 9 then !"\t"
  else if n =? 10 then !"\n"
  else if n =? 13 then !"\r"
  else if (n <? 32) || (n =? 127) || ((128 <=? n) && (n <=? 160)) || (n =? 173)
       then backslash :: "x"%char :: [hexdigit (n / 16); hexdigit (n mod 16)]
  else [c].

Definition repr_str (s : str) : str :=
  let q := if has squote s && negb (has dquote s) then dquote else squote in
  q :: flat_map (repr_char q) s ++ [q].

Fixpoint repr (v : value) : str :=
  match v with
  | VBool true => !"True"
  | VBool false => !"False"
  | VStr s => repr_str s
  | VList l => !"[" ++ join !", " (map repr l) ++ !"]"
  | VDict d =>
      !"{" ++ join !", " (map (fun kv => repr_str (fst kv) ++ !": " ++ repr (snd kv)) d)
          ++ !"}"
  end.

(** [str(v)] *)
Definition to_str (v : value) : str :=
  match v with
  | VStr s => s
  | _ => repr v
  end.

(** *** Exceptions *)

Inductive exn : Type :=
| ConfigError (name : value) (val : option value) (msg : option str)
| IndexError
| KeyError (key : value)
| TypeError
| AttributeError.

(** [str(ConfigError(name, value, msg))], as [ConfigError.__init__]
    builds it. *)
Definition ConfigError_message (name : value) (val : option value)
  (msg : option str) : str :=
  let given := match msg with Some m => negb (str_eqb m []) | None => false end in
  if match val with Some v => truthy v | None => false end then
    let m := if given then match msg with Some m => m | None => [] end
             else !"Invalid value" in
    to_str name ++ !" = "
      ++ match val with Some v => to_str v | None => [] end ++ !": " ++ m
  else
    let m := if given then match msg with Some m => m | None => [] end
             else !"Invalid argument" in
    repr name ++ !": " ++ m.

Inductive result (A : Type) : Type :=
| Ok (a : A)
| Err (e : exn).

Arguments Ok {A} a.
Arguments Err {A} e.

Definition bind {A B : Type} (r : result A) (f : A -> result B) : result B :=
  match r with
  | Ok a => f a
  | Err e => Err e
  end.

Notation "x <- r ;; k" := (bind r (fun x => k))
  (at level 62, r at next level, right associativity).

Definition rmap {A B : Type} (f : A -> B) (r : result A) : result B :=
  x <- r ;; Ok (f x).

(* ================================================================= *)
(** ** [read] *)

(** Lines 45-68: the effect of an option line on the dictionary that
    [subcfg] is bound to. *)
Definition read_option (subcfg : dict) (line : str) : result dict :=
  match re_match _re_bool line with
  | Some bool_match =>
      let name := group bool_match 1 in
      Ok (set_item subcfg name (VBool true))
  | None =>
      match re_match _re_assign line with
      | Some assign_match =>
          let name := group assign_match 1 in
          let value := strip (group assign_match 2) in
          match value with
          | [] => Err IndexError                      (* value[0] *)
          | v0 :: _ =>
              let vl := last value v0 in              (* value[-1] *)
              let value :=
                if (Ascii.eqb v0 vl && Ascii.eqb vl dquote)
                   || (Ascii.eqb v0 vl && Ascii.eqb vl squote)
                then slice_1_m1 value else value in
              match lookup name subcfg with
              | Some old =>
                  let l := match old with VList l => l | _ => [old] end in
                  Ok (set_item subcfg name (VList (l ++ [VStr value])))
              | None => Ok (set_item subcfg name (VStr value))
              end
          end
      | None => Ok subcfg
      end
  end.

(** The objects of [read].  Until the first profile header [cfg] and
    [subcfg] name one dictionary, and nothing has stored a dictionary in
    it ([Top]).  A header allocates a fresh dictionary, binds it in [cfg]
    under the profile's name and makes [subcfg] point to it: [cfg] then
    holds plain values and references to the dictionaries allocated so
    far, of which the newest, at address [length frozen], is the one
    [subcfg] names ([Prof]).  The older ones are no longer written:
    [subcfg] is the only name through which an option is stored. *)
Inductive slot : Type :=
| SVal (v : value)
| SRef (a : nat).

Inductive rstate : Type :=
| Top (cfg : dict)
| Prof (cfg : list (str * slot)) (frozen : list dict) (subcfg : dict).

(** [cfg[profile_name] = subcfg = {}] *)
Definition open_profile (st : rstate) (profile_name : str) : rstate :=
  match st with
  | Top cfg =>
      Prof (set_item (map (fun kv => (fst kv, SVal (snd kv))) cfg)
              profile_name (SRef 0)) [] []
  | Prof cfg frozen subcfg =>
      Prof (set_item cfg profile_name (SRef (S (List.length frozen))))
        (frozen ++ [subcfg]) []
  end.

(** One turn of the loop over the lines of the file. *)
Definition read_line (st : rstate) (l : str) : result rstate :=
  let line := strip l in
  match line with
  | [] => Ok st
  | c0 :: _ =>
      if Ascii.eqb c0 "#"%char then Ok st
      else if Ascii.eqb c0 "["%char && Ascii.eqb (last line c0) "]"%char
      then Ok (open_profile st (slice_1_m1 line))
      else
        match st with
        | Top cfg => rmap Top (read_option cfg line)
        | Prof cfg frozen subcfg =>
            rmap (Prof cfg frozen) (read_option subcfg line)
        end
  end.

Fixpoint read_lines (st : rstate) (lines : list str) : result rstate :=
  match lines with
  | [] => Ok st
  | l :: rest => st' <- read_line st l ;; read_lines st' rest
  end.

(** [return cfg]: the dictionary [cfg] with every reference followed. *)
Definition reify (st : rstate) : dict :=
  match st with
  | Top cfg => cfg
  | Prof cfg frozen subcfg =>
      map (fun kv =>
             (fst kv,
              match snd kv with
              | SVal v => v
              | SRef a => VDict (nth a (frozen ++ [subcfg]) [])
              end)) cfg
  end.

(** [read], on the lines [f.readlines()] returns; opening the file is
    outside the model. *)
Definition read (lines : list str) : result dict :=
  rmap reify (read_lines (Top []) lines).

(* ================================================================= *)
(** ** [validate] *)

(** Lines 83-105: an entry that is not a dictionary. *)
Definition validate_option (defaults : dict) (name : str)
  (value_cfgfile : value) : result value :=
  match lookup name defaults with
  | None => Err (ConfigError (VStr name) None None)
  | Some value_default =>
      if negb (pytype_eqb (type_of value_cfgfile) (type_of value_default)) then
        match type_of value_default, value_cfgfile with
        | TList, _ => Ok (VList [value_cfgfile])
        | _, VList items =>
            Err (ConfigError (VStr name)
                   (Some (VStr (join !", " (map repr items))))
                   (Some !"Multiple values not allowed"))
        | TBool, _ =>
            Err (ConfigError (VStr name) (Some value_cfgfile)
                   (Some !"Assignment to option"))
        | _, _ => Err (ConfigError (VStr name) (Some value_cfgfile) None)
        end
      else Ok value_cfgfile
  end.

(** The loop of [validate] over [cfgfile.items()], building [result]. *)
Definition validate_items (entry : str -> value -> result value) :
  list (str * value) -> dict -> result dict :=
  fix loop (items : list (str * value)) (res : dict) : result dict :=
    match items with
    | [] => Ok res
    | (name, value_cfgfile) :: rest =>
        v <- entry name value_cfgfile ;;
        loop rest (set_item res name v)
    end.

(** The body of the loop: a dictionary is a profile and is validated by
    the recursive call, anything else is checked against [defaults]. *)
Fixpoint validate_entry (defaults : dict) (name : str) (value_cfgfile : value)
  {struct value_cfgfile} : result value :=
  match value_cfgfile with
  | VDict d => rmap VDict (validate_items (validate_entry defaults) d [])
  | _ => validate_option defaults name value_cfgfile
  end.

Definition validate (cfgfile defaults : dict) : result dict :=
  validate_items (validate_entry defaults) cfgfile [].

(* ================================================================= *)
(** ** [combine] *)

(** Lines 112-119 *)
Fixpoint combine_base (cli cfgfile defaults : dict) (names : list str)
  (res : dict) : dict :=
  match names with
  | [] => res
  | name :: rest =>
      let v :=
        match lookup name cli with
        | Some v => Some v
        | None =>
            match lookup name cfgfile with
            | Some v => Some v
            | None => lookup name defaults
            end
        end in
      combine_base cli cfgfile defaults rest
        (match v with Some v => set_item res name v | None => res end)
  end.

(** [for x in v]: the items a [for] loop over [v] visits. *)
Definition py_iter (v : value) : result (list value) :=
  match v with
  | VList l => Ok l
  | VStr s => Ok (map (fun c => VStr [c]) s)
  | VDict d => Ok (map (fun kv => VStr (fst kv)) d)
  | VBool _ => Err TypeError
  end.

(** Lines 129-133 *)
Fixpoint apply_profile (cli defaults : dict) (items : list (str * value))
  (res : dict) : result dict :=
  match items with
  | [] => Ok res
  | (name, v) :: rest =>
      match lookup name cli with
      | Some c =>
          match lookup name defaults with
          | None => Err (KeyError (VStr name))
          | Some d =>
              if negb (py_eq c d) then apply_profile cli defaults rest res
              else apply_profile cli defaults rest (set_item res name v)
          end
      | None => apply_profile cli defaults rest (set_item res name v)
      end
  end.

(** Lines 123-133 *)
Fixpoint apply_profiles (cli cfgfile defaults : dict)
  (profile_names : list value) (res : dict) : result dict :=
  match profile_names with
  | [] => Ok res
  | profile_name :: rest =>
      profile <-
        match profile_name with
        | VStr n =>
            match lookup n cfgfile with
            | Some p => Ok p
            | None => Err (ConfigError profile_name None (Some !"No such profile"))
            end
        | VBool _ => Err (ConfigError profile_name None (Some !"No such profile"))
        | VList _ | VDict _ => Err TypeError
        end ;;
      items <- match profile with
               | VDict d => Ok d
               | _ => Err AttributeError
               end ;;
      res' <- apply_profile cli defaults items res ;;
      apply_profiles cli cfgfile defaults rest res'
  end.

Definition combine (cli cfgfile defaults : dict) : result dict :=
  let res := combine_base cli cfgfile defaults (keys defaults) [] in
  profile_names <-
    match lookup !"profile" cli with
    | Some v => py_iter v
    | None => Ok []
    end ;;
  apply_profiles cli cfgfile defaults profile_names res.

(* ================================================================= *)
(** ** [_ui.py]: the formatters

    The torrent comes from the library [torf]; the functions below take
    the attributes they read.  Text goes to the terminal through
    [print]; the model returns what is printed. *)

(** [str(n)] for a natural number and for an integer *)
Definition str_of_nat (n : nat) : str :=
  list_ascii_of_string (NilZero.string_of_uint (Nat.to_uint n)).

Definition str_of_int (z : Z) : str :=
  list_ascii_of_string (NilZero.string_of_int (Z.to_int z)).

Definition tab : ascii := "009"%char.

(** [_MachineFormatter.trackers]: the URLs of all tiers. *)
Definition machine_trackers (trackers : list (list str)) : list str :=
  List.concat trackers.

(** Lines 142-146: the lines of the tiers from number [i] on. *)
Fixpoint tier_lines (tier_label_width i : nat) (trackers : list (list str))
  : list str :=
  match trackers with
  | [] => []
  | tier :: rest =>
      match tier with
      | [] => []
      | t0 :: more =>
          (!"Tier " ++ str_of_nat i ++ !": " ++ t0)
          :: map (fun tracker => repeat " "%char tier_label_width
                                 ++ !" " ++ tracker) more
      end ++ tier_lines tier_label_width (S i) rest
  end.

(** [_HumanFormatter.trackers] *)
Definition human_trackers (trackers : list (list str)) : list str :=
  if forallb (fun tier => List.length tier <=? 1) trackers then
    flat_map (fun tier => match tier with [] => [] | t0 :: _ => [t0] end)
      trackers
  else
    let tier_label_width :=
      List.length !"Tier :" + List.length (str_of_nat (List.length trackers)) in
    tier_lines tier_label_width 1 trackers.

(** The values [info] is called with: a string, an integer, or a
    sequence of them. *)
Inductive atom : Type :=
| AStr (s : str)
| AInt (z : Z).

Inductive uvalue : Type :=
| Atom (a : atom)
| Many (items : list atom).

(** [str(a)], which is what an f-string puts for [a] *)
Definition atom_text (a : atom) : str :=
  match a with
  | AStr s => s
  | AInt z => str_of_int z
  end.



(** [_MachineFormatter.info]: the text it prints. *)
Definition machine_info (key : str) (v : uvalue) : str :=
  let v' := match v with
            | Many items => join [tab] (map atom_text items)
            | Atom a => atom_text a
            end in
  key ++ [tab] ++ v' ++ [newline].

(* ================================================================= *)
(** ** [_ui.py]: the progress bar

    The bar does not look at the characters of its text, some of which
    (the ellipsis, the two edges) are above code point 255: the model is
    over any type of characters.  The escape sequences are constants of
    the module [_term].  The position is the value of
    [int(fraction_done * width)], a floating-point computation of
    Python's that the model takes as it comes. *)

(** The index [i] of a slice, brought into the bounds of [s]. *)
Definition slice_index {A : Type} (s : list A) (i : Z) : nat :=
  if (i <? 0)%Z then Z.to_nat (Z.max 0 (Z.of_nat (List.length s) + i))
  else Nat.min (Z.to_nat i) (List.length s).

(** [s[:i]] and [s[i:]] *)
Definition slice_to {A : Type} (s : list A) (i : Z) : list A :=
  firstn (slice_index s i) s.

Definition slice_from {A : Type} (s : list A) (i : Z) : list A :=
  skipn (slice_index s i) s.

Definition PROGRESS_BAR_WIDTH : nat := 80.

(** Lines 343-349: the text cut or padded to the width of the bar. *)
Definition fit_text {char : Type} (space ellipsis : char) (text : list char)
  : list char :=
  let width := PROGRESS_BAR_WIDTH in
  if width <? List.length text then
    let half := width / 2 in
    slice_to text (Z.of_nat half) ++ [ellipsis]
      ++ slice_from text (- Z.of_nat (width - half - 1))
  else if List.length text <? width then
    text ++ repeat space (width - List.length text)
  else text.

(** [_HumanStatusReporter._progress_bar]; [None] is the
    [AssertionError] of line 349. *)
Definition _progress_bar {char : Type} (space ellipsis left_edge right_edge : char)
  (reverse_on reverse_off : list char) (text : list char) (pos : Z)
  : option (list char) :=
  let width := PROGRESS_BAR_WIDTH in
  let text := fit_text space ellipsis text in
  if List.length text =? width then
    let bar := reverse_on ++ slice_to text pos
                 ++ reverse_off ++ slice_from text pos in
    Some ([left_edge] ++ bar ++ [right_edge])
  else None.

(* ================================================================= *)
(** ** [_ui.py]: overwriting the output file

    The keys the user presses, the state of the terminal and of the file
    system are inputs; what is printed and which keys are left are
    results. *)

Inductive formatter : Type :=
| HumanFormatter
| MachineFormatter.

Inductive ui_error : Type :=
| UIKeyError (key : str)
| WriteError (msg : str).

Inductive output : Type :=
| Printed (text : str)
| Echoed (codes : list str).

(** How a call ends: it returns, it raises, or it waits for a key that
    does not come; with the keys left and what was written. *)
Inductive outcome (A : Type) : Type :=
| Returned (a : A) (keys : list str) (out : list output)
| Raised (e : ui_error) (keys : list str) (out : list output)
| Waiting (out : list output).

Arguments Returned {A} a keys out.
Arguments Raised {A} e keys out.
Arguments Waiting {A} out.

(** [bool(cfg[name])] *)
Definition cfg_flag (cfg : dict) (name : str) : ui_error + bool :=
  match lookup name cfg with
  | Some v => inr (truthy v)
  | None => inl (UIKeyError name)
  end.

(** [UI._human] *)
Definition _human (cfg : dict) (isatty : bool) : ui_error + bool :=
  match cfg_flag cfg !"nohuman" with
  | inl e => inl e
  | inr true => inr false
  | inr false =>
      match cfg_flag cfg !"human" with
      | inl e => inl e
      | inr true => inr true
      | inr false => inr isatty
      end
  end.

(** [UI.__init__]: the formatter of the interface. *)
Definition ui_formatter (cfg : dict) (isatty : bool) : ui_error + formatter :=
  match _human cfg isatty with
  | inl e => inl e
  | inr true => inr HumanFormatter
  | inr false => inr MachineFormatter
  end.

(** [DIALOG_YES_NO_ANSWERS.get(key, None)] *)
Definition dialog_answer (key : str) : option bool :=
  if str_eqb key !"y" || str_eqb key !"Y" then Some true
  else if str_eqb key !"n" || str_eqb key !"N"
          || str_eqb key ["003"%char] || str_eqb key ["007"%char]
          || str_eqb key ["027"%char]
  then Some false
  else None.

(** [_HumanFormatter.dialog_yes_no]: one turn of the loop for each key. *)
Fixpoint human_dialog (question : str) (keys : list str) (out : list output)
  : outcome bool :=
  let out := out ++ [Printed (question ++ !" [y|n] ")] in
  match keys with
  | [] => Waiting out                                   (* _term.getch() *)
  | key :: keys' =>
      let out := out ++ [Echoed [!"erase_line"; !"move_pos1"]] in
      match dialog_answer key with
      | Some answer => Returned answer keys' out
      | None => human_dialog question keys' out
      end
  end.

(** [dialog_yes_no] of either formatter *)
Definition dialog_yes_no (fmt : formatter) (question : str) (keys : list str)
  : outcome bool :=
  match fmt with
  | HumanFormatter => human_dialog question keys []
  | MachineFormatter => Returned false keys []
  end.

(** [UI.check_output_file_exists]; [exists] and [isdir] are
    [os.path.exists(filepath)] and [os.path.isdir(filepath)]. *)
Definition check_output_file_exists (cfg : dict) (fmt : formatter)
  (filepath : str) (exists_ isdir : bool) (keys : list str) : outcome unit :=
  match cfg_flag cfg !"notorrent" with
  | inl e => Raised e keys []
  | inr true => Returned tt keys []
  | inr false =>
      if exists_ then
        if isdir then Raised (WriteError (filepath ++ !": Is a directory")) keys []
        else
          match cfg_flag cfg !"yes" with
          | inl e => Raised e keys []
          | inr true => Returned tt keys []
          | inr false =>
              match dialog_yes_no fmt (filepath ++ !": Overwrite file?") keys with
              | Returned true keys' out => Returned tt keys' out
              | Returned false keys' out =>
                  Raised (WriteError (filepath ++ !": File exists")) keys' out
              | Raised e keys' out => Raised e keys' out
              | Waiting out => Waiting out
              end
          end
      else Returned tt keys []
  end.

(* ================================================================= *)
(** * Vocabulary of the statements *)

(** ** Strings *)

Definition spaces (w : str) : Prop := Forall (fun c => isspace c = true) w.
Definition nonspaces (w : str) : Prop := Forall (fun c => isspace c = false) w.

(** A string with no whitespace at either end. *)
Definition trimmed (s : str) : Prop :=
  match s with
  | [] => True
  | c :: _ => isspace c = false /\ isspace (last s c) = false
  end.

Definition no_newline (s : str) : Prop :=
  Forall (fun c => in_class Dot c = true) s.

(** ** Lines *)

(** What [read] takes a line for, by the tests of its loop in their
    order: blank or comment, profile header, flag ([_re_bool]), assignment
    of a trimmed value ([_re_assign]), or none of these. *)
Inductive line_kind : Type :=
| Skipped
| Header (profile_name : str)
| Flag (name : str)
| Assignment (name value : str)
| Ignored.

Definition classify (l : str) : line_kind :=
  let line := strip l in
  match line with
  | [] => Skipped
  | c0 :: _ =>
      if Ascii.eqb c0 "#"%char then Skipped
      else if Ascii.eqb c0 "["%char && Ascii.eqb (last line c0) "]"%char
      then Header (slice_1_m1 line)
      else
        match re_match _re_bool line with
        | Some m => Flag (group m 1)
        | None =>
            match re_match _re_assign line with
            | Some m => Assignment (group m 1) (strip (group m 2))
            | None => Ignored
            end
        end
  end.

Definition is_header (l : str) : bool :=
  match classify l with
  | Header _ => true
  | _ => false
  end.

(** The option a line names: the key of the flag or of the assignment
    that [read] takes it for, if any. *)
Definition line_name (l : str) : option str :=
  match classify l with
  | Flag n | Assignment n _ => Some n
  | _ => None
  end.

Definition is_quote (q : ascii) : Prop := q = dquote \/ q = squote.

(** Neither [value[0] == value[-1] == dquote] nor the same with a single
    quote. *)
Definition unquoted (value : str) : Prop :=
  forall q, is_quote q ->
            ~ (hd_error value = Some q /\ last value " "%char = q).

(** Lines 57-58 as a function of the trimmed value. *)
Definition dequote (value : str) : str :=
  match value with
  | [] => []
  | v0 :: _ =>
      let vl := last value v0 in
      if (Ascii.eqb v0 vl && Ascii.eqb vl dquote)
         || (Ascii.eqb v0 vl && Ascii.eqb vl squote)
      then slice_1_m1 value else value
  end.

(** The string an assignment of [value] records: [value] itself, or
    what is between its pair of quotes. *)
Definition assigns (value v : str) : Prop :=
  (unquoted value /\ v = value)
  \/ (exists q, is_quote q
                /\ (value = q :: v ++ [q] \/ (value = [q] /\ v = []))).

(** The parts of a line [key = value] that make [read] take it for an
    assignment: a key without whitespace that does not start a comment,
    whitespace on either side of the equals sign and some of it on at
    least one side, a value without whitespace at its ends, and not the
    brackets of a profile header around the whole. *)
Record assignment_parts (key w1 w2 value : str) : Prop := {
  ap_key : key <> [];
  ap_key_token : nonspaces key;
  ap_not_comment : hd_error key <> Some "#"%char;
  ap_w1 : spaces w1;
  ap_w2 : spaces w2;
  ap_value : value <> [];
  ap_trimmed : trimmed value;
  ap_one_line : no_newline value;
  ap_not_header :
    ~ (hd_error key = Some "["%char /\ last value " "%char = "]"%char);
  ap_spaced : w1 <> [] \/ (w2 <> [] /\ hd_error value <> Some equals)
}.

(** A token that [read] takes for a flag. *)
Record flag_token (key : str) : Prop := {
  ft_key : key <> [];
  ft_token : nonspaces key;
  ft_not_comment : hd_error key <> Some "#"%char;
  ft_not_header :
    ~ (hd_error key = Some "["%char /\ last key " "%char = "]"%char)
}.

(** ** Scopes *)

(** The dictionary [subcfg] names. *)
Definition current (st : rstate) : dict :=
  match st with
  | Top cfg => cfg
  | Prof _ _ subcfg => subcfg
  end.

(** The same objects with other contents for the dictionary [subcfg]
    names. *)
Definition with_current (st : rstate) (d : dict) : rstate :=
  match st with
  | Top _ => Top d
  | Prof cfg frozen _ => Prof cfg frozen d
  end.

(** The scope after the string [v] has been assigned to [name]: the
    first assignment stores a string, a later one makes or extends a
    list. *)
Definition record_value (d : dict) (name v : str) : dict :=
  match lookup name d with
  | Some (VList l) => set_item d name (VList (l ++ [VStr v]))
  | Some old => set_item d name (VList [old; VStr v])
  | None => set_item d name (VStr v)
  end.

(** What a line that is not a header does to the dictionary [subcfg]
    names. *)
Definition scope_line (d : dict) (l : str) : result dict :=
  match classify l with
  | Flag name => Ok (set_item d name (VBool true))
  | Assignment name value =>
      match value with
      | [] => Err IndexError
      | _ :: _ => Ok (record_value d name (dequote value))
      end
  | _ => Ok d
  end.

(** The lines between two profile headers. *)
Fixpoint read_block (d : dict) (blk : list str) : result dict :=
  match blk with
  | [] => Ok d
  | l :: rest => d' <- scope_line d l ;; read_block d' rest
  end.

Definition no_header (blk : list str) : Prop :=
  Forall (fun l => is_header l = false) blk.

(** The rest of a file after a block: nothing, or lines that begin with
    a profile header. *)
Definition starts_scope (post : list str) : Prop :=
  match post with
  | [] => True
  | l :: _ => is_header l = true
  end.

(** No line is an assignment of the empty string. *)
Definition no_empty_value (lines : list str) : Prop :=
  Forall (fun l => forall n, classify l <> Assignment n []) lines.

(** No line of [post] is the header of the profile [name]. *)
Definition not_reopened (name : str) (post : list str) : Prop :=
  Forall (fun l => classify l <> Header name) post.

(** The profile [name] is bound to a dictionary that [subcfg] no longer
    names and whose contents are [d]. *)
Definition bound_frozen (name : str) (d : dict) (st : rstate) : Prop :=
  match st with
  | Top _ => False
  | Prof cfg frozen _ =>
      exists a, lookup name cfg = Some (SRef a)
                /\ a < List.length frozen /\ nth a frozen [] = d
  end.

(** The top-level option [key] holds the plain value [x], in a state
    where [subcfg] names a profile. *)
Definition bound_plain (key : str) (x : value) (st : rstate) : Prop :=
  match st with
  | Top _ => False
  | Prof cfg _ _ => lookup key cfg = Some (SVal x)
  end.

(** ** Mappings *)

(** A dictionary of options: distinct keys, no nested dictionary. *)
Definition flat (d : dict) : Prop :=
  NoDup (keys d) /\ forall k v, In (k, v) d -> type_of v <> TDict.

(** A mapping as [read] returns it: options and profiles of options. *)
Definition raw_shape (raw : dict) : Prop :=
  NoDup (keys raw)
  /\ forall k v, In (k, v) raw ->
                 type_of v <> TDict \/ exists d, v = VDict d /\ flat d.

Definition slot_plain (s : slot) : Prop :=
  match s with
  | SVal v => type_of v <> TDict
  | SRef _ => True
  end.

(** The invariant of the loop of [read]. *)
Definition read_inv (st : rstate) : Prop :=
  match st with
  | Top cfg => flat cfg
  | Prof cfg frozen subcfg =>
      NoDup (keys cfg) /\ (forall k s, In (k, s) cfg -> slot_plain s)
      /\ Forall flat frozen /\ flat subcfg
  end.

(** An accepted option: a schema key with a value of the type of its
    default. *)
Definition option_ok (defaults : dict) (k : str) (v : value) : Prop :=
  type_of v <> TDict
  /\ exists d, lookup k defaults = Some d /\ type_of v = type_of d.

Definition profile_ok (defaults : dict) (prof : dict) : Prop :=
  NoDup (keys prof) /\ forall k v, In (k, v) prof -> option_ok defaults k v.

Definition well_validated (defaults cfgfile : dict) : Prop :=
  NoDup (keys cfgfile)
  /\ forall k v, In (k, v) cfgfile ->
                 option_ok defaults k v
                 \/ exists prof, v = VDict prof /\ profile_ok defaults prof.

(** A validated file mapping: what [validate] returns for what [read]
    returns. *)
Definition validated_file (cfgfile defaults : dict) : Prop :=
  exists lines raw, read lines = Ok raw /\ validate raw defaults = Ok cfgfile.

(** The value of the first loop of [combine] for a schema key: CLI,
    else file, else default. *)
Definition base_value (cli cfgfile defaults : dict) (name : str)
  : option value :=
  match lookup name cli with
  | Some v => Some v
  | None =>
      match lookup name cfgfile with
      | Some v => Some v
      | None => lookup name defaults
      end
  end.

(** The CLI values have the types of the schema defaults. *)
Definition cli_typed (cli defaults : dict) : Prop :=
  forall k c d, lookup k cli = Some c -> lookup k defaults = Some d ->
                type_of c = type_of d.

(** No schema key that the CLI leaves out is the name of a profile of
    the file. *)
Definition no_shadowing (cli cfgfile defaults : dict) : Prop :=
  forall k prof, In k (keys defaults) -> lookup k cli = None ->
                 lookup k cfgfile <> Some (VDict prof).

(** Every schema key has a value of the type of its default. *)
Definition typed (res defaults : dict) : Prop :=
  forall k d, lookup k defaults = Some d ->
              exists v, lookup k res = Some v /\ type_of v = type_of d.

(** Every name is bound to a profile. *)
Definition all_profiles (cfgfile : dict) (names : list str) : Prop :=
  Forall (fun n => exists prof, lookup n cfgfile = Some (VDict prof)) names.

(** ** Inputs of the examples *)

Definition schema : dict :=
  [(!"verbose", VBool false); (!"profile", VList [])].

Definition c1_lines : list str := [!"[P]"; !"verbose"].
Definition c1_cfgfile : dict := [(!"P", VDict [(!"verbose", VBool true)])].
Definition c1_cli : dict :=
  [(!"verbose", VBool false); (!"profile", VList [VStr !"P"])].

Definition c3_lines : list str := [!"[verbose]"].

Definition c5_lines : list str := [!"verbose"].
Definition c5_cli : dict := [(!"profile", VList [VStr !"verbose"])].

Definition c6_defaults : dict := [(!"name", VStr []); (!"tracker", VList [])].

Definition hello : str := !"hello world".

(** ** Vocabulary of the further properties *)

(** A blank line or a comment. *)
Definition skippable (l : str) : Prop :=
  strip l = [] \/ hd_error (strip l) = Some "#"%char.

(** The string a line records for [key], when it is an assignment to
    [key]. *)
Definition line_value (key l : str) : option str :=
  match classify l with
  | Assignment n v => if str_eqb n key then Some (dequote v) else None
  | _ => None
  end.

(** The strings the lines of a block assign to [key], in their order. *)
Fixpoint assigned_values (key : str) (blk : list str) : list str :=
  match blk with
  | [] => []
  | l :: rest =>
      match line_value key l with
      | Some v => v :: assigned_values key rest
      | None => assigned_values key rest
      end
  end.

Definition no_flag (key : str) (blk : list str) : Prop :=
  Forall (fun l => classify l <> Flag key) blk.

(** How a scope holds the strings assigned to one key: nothing, the
    string, or the list of the strings. *)
Definition stored (vs : list str) : option value :=
  match vs with
  | [] => None
  | [v] => Some (VStr v)
  | _ => Some (VList (map VStr vs))
  end.

(** The value the selected profiles give a key: that of the last one
    that sets it, [acc] when none does. *)
Fixpoint profiles_value (cfgfile : dict) (key : str) (names : list str)
  (acc : option value) : option value :=
  match names with
  | [] => acc
  | n :: rest =>
      profiles_value cfgfile key rest
        (match lookup n cfgfile with
         | Some (VDict prof) =>
             match lookup key prof with
             | Some v => Some v
             | None => acc
             end
         | _ => acc
         end)
  end.

(** The top level binds [key] to the plain value [x], or not at all,
    in a state where [subcfg] names a profile. *)
Definition top_is (key : str) (x : option value) (st : rstate) : Prop :=
  match st with
  | Top _ => False
  | Prof cfg _ _ => lookup key cfg = option_map SVal x
  end.

(** The top level binds [name] to a profile. *)
Definition bound_profile (name : str) (st : rstate) : Prop :=
  match st with
  | Top _ => False
  | Prof cfg _ _ => exists a, lookup name cfg = Some (SRef a)
  end.

(** The strings of [urls] each at the end of a line of [lines], after
    [width] characters. *)
Definition at_column (width : nat) (lines urls : list str) : Prop :=
  Forall2 (fun line url => exists prefix,
               line = prefix ++ url /\ List.length prefix = width)
    lines urls.

(** The characters [text[:pos]] takes of a text of the bar's width. *)
Definition highlighted (pos : Z) : nat :=
  if (pos <? 0)%Z then Z.to_nat (Z.of_nat PROGRESS_BAR_WIDTH + pos)
  else Nat.min (Z.to_nat pos) PROGRESS_BAR_WIDTH.

(** What one turn of the dialog writes. *)
Definition dialog_turn (question : str) : list output :=
  [Printed (question ++ !" [y|n] "); Echoed [!"erase_line"; !"move_pos1"]].

(** The answer of the first key that has one. *)
Fixpoint first_answer (keys : list str) : option bool :=
  match keys with
  | [] => None
  | key :: rest =>
      match dialog_answer key with
      | Some answer => Some answer
      | None => first_answer rest
      end
  end.

(** [s.split(c)]: the pieces of [s] between the occurrences of [c]. *)
Fixpoint split_on (c : ascii) (s : str) : list str :=
  match s with
  | [] => [[]]
  | x :: rest =>
      if Ascii.eqb x c then [] :: split_on c rest
      else match split_on c rest with
           | piece :: pieces => (x :: piece) :: pieces
           | [] => [[x]]
           end
  end.

(** A configuration of the command line with the flags the interface
    reads, none of them set. *)
Definition ui_cfg : dict :=
  [(!"nohuman", VBool false); (!"human", VBool false);
   (!"notorrent", VBool false); (!"yes", VBool false)].

(** A command line that selects the profile [P] and sets nothing
    else. *)
Definition cli_select_P : dict := [(!"profile", VList [VStr !"P"])].

(** Two profiles, and a command line that selects both and sets
    [verbose]. *)
Definition cfgfile_PQ : dict :=
  [(!"P", VDict [(!"profile", VList [VStr !"Q"])]);
   (!"Q", VDict [(!"profile", VList [VStr !"P"])])].

Definition cli_verbose_PQ : dict :=
  [(!"verbose", VBool true); (!"profile", VList [VStr !"P"; VStr !"Q"])].

(* ================================================================= *)
(** * Lemmas and theorems *)

(** ** Strings and [strip] *)

Lemma str_eqb_eq (a b : str) : str_eqb a b = true <-> a = b.
Proof.
  unfold str_eqb. destruct (list_eq_dec ascii_dec a b); split; congruence.
Qed.

Lemma str_eqb_refl (a : str) : str_eqb a a = true.
Proof. now apply str_eqb_eq. Qed.

Lemma str_eqb_neq (a b : str) : str_eqb a b = false <-> a <> b.
Proof.
  unfold str_eqb. destruct (list_eq_dec ascii_dec a b); split; congruence.
Qed.

Lemma lstrip_spaces (w s : str) : spaces w -> lstrip (w ++ s) = lstrip s.
Proof.
  induction 1 as [|c w Hc _ IH]; simpl; [reflexivity|]. now rewrite Hc.
Qed.

Lemma lstrip_nonspace (c : ascii) (s : str) :
  isspace c = false -> lstrip (c :: s) = c :: s.
Proof. intros H. simpl. now rewrite H. Qed.

Lemma last_app_cons {A : Type} (a b : list A) (x d : A) :
  last (a ++ x :: b) d = last (x :: b) d.
Proof.
  induction a as [|y a IH]; [reflexivity|].
  change ((y :: a) ++ x :: b) with (y :: (a ++ x :: b)).
  rewrite <- IH. simpl. destruct (a ++ x :: b) eqn:E; [|reflexivity].
  now destruct a.
Qed.

Lemma last_cons_default {A : Type} (s : list A) (c d d' : A) :
  last (c :: s) d = last (c :: s) d'.
Proof.
  revert c. induction s as [|x s IH]; intros c; [reflexivity|].
  change (last (x :: s) d = last (x :: s) d'). apply IH.
Qed.

Lemma rev_cons_last {A : Type} (c : A) (s : list A) :
  exists t, rev (c :: s) = last (c :: s) c :: t.
Proof.
  destruct (@exists_last _ (c :: s)) as [t [x E]]; [discriminate|].
  rewrite E, rev_app_distr. simpl. exists (rev t).
  now rewrite last_last.
Qed.

Lemma strip_sandwich (w0 s w3 : str) :
  spaces w0 -> spaces w3 -> trimmed s -> strip (w0 ++ s ++ w3) = s.
Proof.
  intros H0 H3 Hs. unfold strip. rewrite lstrip_spaces by assumption.
  destruct s as [|c s].
  - simpl. replace (lstrip w3) with (@nil ascii); [reflexivity|].
    rewrite <- (app_nil_r w3). now rewrite lstrip_spaces.
  - destruct Hs as [Hc Hl].
    change ((c :: s) ++ w3) with (c :: (s ++ w3)).
    rewrite lstrip_nonspace by assumption.
    change (c :: s ++ w3) with ((c :: s) ++ w3).
    rewrite rev_app_distr, lstrip_spaces.
    + destruct (rev_cons_last c s) as [t E]. rewrite E.
      rewrite lstrip_nonspace by assumption. rewrite <- E. apply rev_involutive.
    + unfold spaces. apply Forall_rev. exact H3.
Qed.

Lemma strip_trimmed (s : str) : trimmed s -> strip s = s.
Proof.
  intros H. generalize (strip_sandwich [] s [] (Forall_nil _) (Forall_nil _) H).
  simpl. now rewrite app_nil_r.
Qed.

Lemma nonspaces_last (c : ascii) (s : str) :
  nonspaces (c :: s) -> isspace (last (c :: s) c) = false.
Proof.
  intros H. destruct (@exists_last _ (c :: s)) as [t [x E]]; [discriminate|].
  rewrite E, last_last. unfold nonspaces in H. rewrite E in H.
  apply Forall_app in H. destruct H as [_ H]. now inversion H.
Qed.

Lemma nonspaces_trimmed (s : str) : nonspaces s -> trimmed s.
Proof.
  destruct s as [|c s]; [exact (fun _ => I)|]. intros H. split.
  - now inversion H.
  - now apply nonspaces_last.
Qed.

Lemma trimmed_body (key mid value : str) :
  key <> [] -> nonspaces key -> value <> [] -> trimmed value ->
  trimmed (key ++ mid ++ value).
Proof.
  intros Hk Hn Hv Ht. destruct key as [|k0 key]; [congruence|].
  destruct value as [|v0 value]; [congruence|]. destruct Ht as [_ Hl].
  inversion Hn; subst.
  change (isspace k0 = false
          /\ isspace (last ((k0 :: key) ++ mid ++ v0 :: value) k0) = false).
  split; [assumption|].
  rewrite app_assoc, last_app_cons. now rewrite (last_cons_default _ _ k0 v0).
Qed.

Ltac app_norm :=
  repeat (rewrite <- app_assoc || rewrite <- app_comm_cons).

(** ** The matcher *)

Lemma star_stop (cl : cclass) (pos : nat) (s : str) (caps : list str) (k : kont) :
  match s with [] => True | c :: _ => in_class cl c = false end ->
  star cl pos s caps k = k pos s caps.
Proof. destruct s as [|c s]; simpl; [reflexivity|]. now intros ->. Qed.

(** Greedy repetition: when the continuation accepts the longest run,
    that is the match. *)
Lemma star_greedy (cl : cclass) (a b : str) (pos : nat) (caps : list str)
  (k : kont) (m : list str) :
  Forall (fun c => in_class cl c = true) a ->
  match b with [] => True | c :: _ => in_class cl c = false end ->
  k (pos + List.length a) b caps = Some m ->
  star cl pos (a ++ b) caps k = Some m.
Proof.
  intros Ha Hb. revert pos. induction Ha as [|c a Hc _ IH]; intros pos Hk.
  - simpl in *. rewrite Nat.add_0_r in Hk. now rewrite star_stop.
  - simpl. rewrite Hc. rewrite IH; [reflexivity|].
    simpl in Hk. now rewrite Nat.add_succ_r in Hk.
Qed.

(** Backtracking by one character: the longest run is refused, the run
    without its last character is accepted. *)
Lemma star_give_back (cl : cclass) (a b : str) (c : ascii) (pos : nat)
  (caps : list str) (k : kont) (m : list str) :
  Forall (fun c => in_class cl c = true) a ->
  in_class cl c = true ->
  match b with [] => True | c :: _ => in_class cl c = false end ->
  k (S (pos + List.length a)) b caps = None ->
  k (pos + List.length a) (c :: b) caps = Some m ->
  star cl pos (a ++ c :: b) caps k = Some m.
Proof.
  intros Ha Hc Hb. revert pos. induction Ha as [|x a Hx _ IH]; intros pos Hn Hk.
  - simpl in *. rewrite Nat.add_0_r in *. rewrite Hc.
    rewrite star_stop by assumption. now rewrite Hn.
  - simpl. rewrite Hx. simpl in Hn, Hk. rewrite Nat.add_succ_r in Hn, Hk.
    now rewrite IH.
Qed.

(** A continuation that refuses every split of the run refuses the
    repetition. *)
Lemma star_none (cl : cclass) (s : str) (pos : nat) (caps : list str) (k : kont) :
  (forall p t pos', s = p ++ t -> Forall (fun c => in_class cl c = true) p ->
                    k pos' t caps = None) ->
  star cl pos s caps k = None.
Proof.
  revert pos. induction s as [|c s IH]; intros pos H.
  - simpl. now apply (H []).
  - simpl. rewrite (H [] (c :: s)) by (reflexivity || constructor).
    destruct (in_class cl c) eqn:Hc; [|reflexivity].
    rewrite IH; [reflexivity|].
    intros p t pos' E Hp. apply (H (c :: p)); [now rewrite E|now constructor].
Qed.

Lemma prefix_before_stop (cl : cclass) (a b p t : str) (c : ascii) :
  a ++ c :: b = p ++ t -> Forall (fun x => in_class cl x = true) p ->
  in_class cl c = false ->
  exists a1 u, a = a1 ++ u /\ t = u ++ c :: b.
Proof.
  revert a. induction p as [|x p IH]; intros a E Hp Hc.
  - exists [], a. now rewrite E.
  - inversion Hp as [|? ? Hx Hp']; subst. destruct a as [|y a]; simpl in E.
    + injection E as -> _. congruence.
    + injection E as _ E. destruct (IH a E Hp' Hc) as [a1 [u [-> ->]]].
      now exists (y :: a1), u.
Qed.

Lemma nonspaces_class (s : str) :
  nonspaces s <-> Forall (fun c => in_class NonSpace c = true) s.
Proof.
  unfold nonspaces. split; intros H; induction H; constructor; trivial;
    simpl in *; now destruct (isspace x).
Qed.

(** A line with whitespace inside is not a bare token. *)
Lemma re_bool_inner_space (a b : str) (c : ascii) :
  isspace c = true -> b <> [] -> re_match _re_bool (a ++ c :: b) = None.
Proof.
  intros Hc Hb. unfold re_match, _re_bool. cbn [rmatch]. simpl Nat.eqb. cbv iota.
  destruct a as [|x a]; simpl app.
  - simpl. now rewrite Hc.
  - cbv beta iota. destruct (in_class NonSpace x); [|reflexivity].
    apply star_none. intros p t pos' E Hp.
    destruct (prefix_before_stop NonSpace _ _ _ _ _ E Hp) as [a1 [u [_ ->]]];
      [simpl; now rewrite Hc|].
    destruct u as [|u0 [|u1 u]]; destruct b as [|b0 b]; try congruence; reflexivity.
Qed.

(** A bare token is matched whole. *)
Lemma re_bool_token (c : ascii) (s : str) :
  nonspaces (c :: s) -> re_match _re_bool (c :: s) = Some [c :: s].
Proof.
  intros H. unfold re_match, _re_bool. cbn [rmatch]. simpl Nat.eqb. cbv iota.
  apply nonspaces_class in H. inversion H as [|? ? Hc Hs]; subst.
  cbv beta iota. rewrite Hc.
  rewrite <- (app_nil_r s) at 1. apply star_greedy; trivial.
  cbn. now rewrite firstn_all.
Qed.

Lemma stop_space_trimmed (s : str) :
  trimmed s -> match s with [] => True | c :: _ => in_class Space c = false end.
Proof. destruct s; simpl; tauto. Qed.

Lemma firstn_length_app {A : Type} (a b : list A) :
  firstn (List.length a) (a ++ b) = a.
Proof.
  rewrite firstn_app, Nat.sub_diag, firstn_all. simpl. apply app_nil_r.
Qed.

(** The tail of the assignment pattern, after the equals sign. *)
Lemma re_assign_tail (w2 value : str) (pos : nat) (caps : list str) :
  spaces w2 -> trimmed value -> no_newline value ->
  rmatch (Star Space >> Group (Star Dot) >> Star Space >> Eol)%re pos
    (w2 ++ value) caps (fun _ _ caps => Some caps)
  = Some (caps ++ [value]).
Proof.
  intros H2 Ht Hn. cbn [rmatch].
  apply star_greedy; [exact H2|destruct w2; apply stop_space_trimmed; exact Ht|].
  rewrite <- (app_nil_r value) at 1. apply star_greedy; [exact Hn|exact I|].
  cbn.
  replace (pos + List.length w2 + List.length value - (pos + List.length w2))
    with (List.length value) by lia.
  now rewrite firstn_all.
Qed.

(** [key <space> = value]: whitespace before the equals sign. *)
Lemma re_assign_spaced (key w1 w2 value : str) :
  key <> [] -> nonspaces key -> spaces w1 -> w1 <> [] -> spaces w2 ->
  trimmed value -> no_newline value ->
  re_match _re_assign (key ++ w1 ++ equals :: w2 ++ value)
  = Some [key; value].
Proof.
  intros Hk Hn H1 Hw1 H2 Ht Hv. unfold re_match, _re_assign.
  cbn [rmatch]. simpl Nat.eqb. cbv iota.
  destruct key as [|k0 key]; [congruence|]. simpl app. cbv beta iota.
  apply nonspaces_class in Hn. inversion Hn as [|? ? Hk0 Hkey]; subst.
  rewrite Hk0. apply star_greedy; [exact Hkey| |].
  { destruct w1 as [|c w1]; [congruence|]. inversion H1; subst. simpl.
    now destruct (isspace c). }
  apply star_greedy; [exact H1|reflexivity|].
  rewrite Ascii.eqb_refl.
  etransitivity; [apply (re_assign_tail w2 value _ _ H2 Ht Hv)|].
  simpl app. now rewrite firstn_length_app.
Qed.

(** [key= value]: no whitespace before the equals sign, some after it,
    and a value that does not begin with an equals sign. *)
Lemma re_assign_tight (key w2 value : str) (v0 : ascii) :
  key <> [] -> nonspaces key -> spaces w2 -> w2 <> [] ->
  trimmed value -> no_newline value -> hd_error value = Some v0 ->
  v0 <> equals ->
  re_match _re_assign (key ++ equals :: w2 ++ value) = Some [key; value].
Proof.
  intros Hk Hn H2 Hw2 Ht Hv Hv0 Hne. unfold re_match, _re_assign.
  cbn [rmatch]. simpl Nat.eqb. cbv iota.
  destruct key as [|k0 key]; [congruence|]. simpl app. cbv beta iota.
  apply nonspaces_class in Hn. inversion Hn as [|? ? Hk0 Hkey]; subst.
  rewrite Hk0.
  destruct value as [|v value]; [discriminate|]. injection Hv0 as ->.
  destruct Ht as [Hv0 Hvl].
  apply star_give_back; [exact Hkey|reflexivity| | |].
  - destruct w2 as [|c w2]; [congruence|]. inversion H2; subst. simpl.
    now destruct (isspace c).
  - apply star_none. intros p t pos' E Hp.
    destruct (prefix_before_stop Space _ _ _ _ _ E Hp Hv0) as [a1 [u [Ea ->]]].
    assert (Hu : spaces u).
    { unfold spaces in H2. rewrite Ea in H2. now apply Forall_app in H2. }
    destruct u as [|u0 u]; simpl.
    + destruct (Ascii.eqb_spec v0 equals); [congruence|reflexivity].
    + inversion Hu; subst.
      destruct (Ascii.eqb_spec u0 equals) as [->|]; [discriminate|reflexivity].
  - cbn [star in_class isspace nat_of_ascii equals]. simpl.
    etransitivity;
      [apply (re_assign_tail w2 (v0 :: value) _ _ H2 (conj Hv0 Hvl) Hv)|].
    simpl app. now rewrite firstn_length_app.
Qed.

(** ** Dictionaries *)

Section AssocFacts.
Context {V : Type}.
Implicit Types (d : list (str * V)) (k : str) (v : V).

Lemma lookup_set_item_eq d k v : lookup k (set_item d k v) = Some v.
Proof.
  induction d as [|[k' v'] d IH]; simpl.
  - now rewrite str_eqb_refl.
  - destruct (str_eqb k k') eqn:E; simpl; rewrite E; trivial.
Qed.

Lemma lookup_set_item_neq d k k' v :
  k <> k' -> lookup k (set_item d k' v) = lookup k d.
Proof.
  intros Hne. apply str_eqb_neq in Hne.
  induction d as [|[k0 v0] d IH]; simpl.
  - now rewrite Hne.
  - destruct (str_eqb k' k0) eqn:E; simpl.
    + apply str_eqb_eq in E. subst k0. now rewrite Hne.
    + now rewrite IH.
Qed.

Lemma keys_set_item d k k' v :
  In k (keys (set_item d k' v)) <-> k = k' \/ In k (keys d).
Proof.
  unfold keys. induction d as [|[k0 v0] d IH]; simpl.
  - intuition.
  - destruct (str_eqb k' k0) eqn:E; simpl.
    + apply str_eqb_eq in E. subst k0. intuition.
    + rewrite IH. intuition.
Qed.

Lemma NoDup_set_item d k v : NoDup (keys d) -> NoDup (keys (set_item d k v)).
Proof.
  induction d as [|[k0 v0] d IH]; simpl; intros H.
  - repeat constructor. intros [].
  - inversion H as [|? ? Hn Hd]; subst.
    destruct (str_eqb k k0) eqn:E; simpl; [now constructor|].
    constructor; [|now apply IH].
    intros Hin. apply keys_set_item in Hin. destruct Hin as [->|Hin].
    + now rewrite str_eqb_refl in E.
    + contradiction.
Qed.

Lemma In_set_item d k k' v v' :
  In (k, v) (set_item d k' v') -> (k = k' /\ v = v') \/ In (k, v) d.
Proof.
  induction d as [|[k0 v0] d IH]; simpl.
  - intros [E|[]]. injection E as <- <-. now left.
  - destruct (str_eqb k' k0) eqn:E; simpl.
    + apply str_eqb_eq in E. subst k0. intros [H|H]; [|now right; right].
      injection H as <- <-. now left.
    + intros [H|H]; [now right; left|]. destruct (IH H); auto.
Qed.

Lemma lookup_In d k v : lookup k d = Some v -> In (k, v) d.
Proof.
  induction d as [|[k0 v0] d IH]; simpl; [discriminate|].
  destruct (str_eqb k k0) eqn:E.
  - apply str_eqb_eq in E. subst k0. intros [= ->]. now left.
  - intros H. right. now apply IH.
Qed.

Lemma lookup_None d k : lookup k d = None <-> ~ In k (keys d).
Proof.
  unfold keys. induction d as [|[k0 v0] d IH]; simpl; [tauto|].
  destruct (str_eqb k k0) eqn:E.
  - apply str_eqb_eq in E. subst k0. split; [discriminate|tauto].
  - apply str_eqb_neq in E. rewrite IH. intuition.
Qed.

Lemma In_lookup d k v : NoDup (keys d) -> In (k, v) d -> lookup k d = Some v.
Proof.
  induction d as [|[k0 v0] d IH]; simpl; [tauto|].
  intros Hnd [E|Hin]; inversion Hnd as [|? ? Hn Hd]; subst.
  - injection E as -> ->. now rewrite str_eqb_refl.
  - destruct (str_eqb k k0) eqn:E; [|now apply IH].
    apply str_eqb_eq in E. subst k0. exfalso. apply Hn.
    now apply (in_map fst) in Hin.
Qed.

Lemma lookup_keys d k : In k (keys d) <-> exists v, lookup k d = Some v.
Proof.
  destruct (lookup k d) eqn:E.
  - split; [eauto|]. intros _. apply lookup_In in E.
    now apply (in_map fst) in E.
  - apply lookup_None in E. split; [tauto|]. intros [? ?]. discriminate.
Qed.
End AssocFacts.

Lemma lookup_map {A B : Type} (f : A -> B) (d : list (str * A)) (k : str) :
  lookup k (map (fun kv => (fst kv, f (snd kv))) d) = option_map f (lookup k d).
Proof.
  induction d as [|[k0 v0] d IH]; simpl; [reflexivity|].
  now destruct (str_eqb k k0).
Qed.

Lemma keys_map {A B : Type} (f : A -> B) (d : list (str * A)) :
  keys (map (fun kv => (fst kv, f (snd kv))) d) = keys d.
Proof. unfold keys. rewrite map_map. reflexivity. Qed.

Lemma NoDup_keys_split {V : Type} (a b : list (str * V)) (k : str) (v : V) :
  NoDup (keys (a ++ (k, v) :: b)) -> ~ In k (keys a) /\ ~ In k (keys b).
Proof.
  unfold keys. rewrite map_app. simpl. intros H.
  apply NoDup_remove_2 in H. split; intros Hin; apply H; apply in_or_app; tauto.
Qed.

(* ================================================================= *)
(** ** How [read] takes a line *)

Lemma with_current_current (st : rstate) : with_current st (current st) = st.
Proof. now destruct st. Qed.

Lemma with_current_twice (st : rstate) (d d' : dict) :
  with_current (with_current st d) d' = with_current st d'.
Proof. now destruct st. Qed.

Lemma current_with_current (st : rstate) (d : dict) :
  current (with_current st d) = d.
Proof. now destruct st. Qed.

Lemma dequote_quoted (q : ascii) (inner : str) :
  is_quote q -> dequote (q :: inner ++ [q]) = inner.
Proof.
  intros Hq. unfold dequote.
  replace (last (q :: inner ++ [q]) q) with q.
  - rewrite Ascii.eqb_refl. unfold slice_1_m1. simpl tl.
    rewrite removelast_last. destruct Hq as [-> | ->]; reflexivity.
  - change (q :: inner ++ [q]) with ((q :: inner) ++ [q]).
    now rewrite last_last.
Qed.

Lemma dequote_unquoted (value : str) : unquoted value -> dequote value = value.
Proof.
  intros H. destruct value as [|v0 value]; [reflexivity|]. unfold dequote.
  rewrite (last_cons_default value v0 v0 " "%char).
  destruct (Ascii.eqb_spec v0 (last (v0 :: value) " "%char)) as [E|];
    [|reflexivity].
  rewrite <- E. simpl andb.
  destruct (Ascii.eqb_spec v0 dquote) as [Ed|].
  - exfalso. apply (H dquote); [now left|]. split; [simpl|]; congruence.
  - destruct (Ascii.eqb_spec v0 squote) as [Es|]; [|reflexivity].
    exfalso. apply (H squote); [now right|]. split; [simpl|]; congruence.
Qed.

Lemma dequote_assigns (value v : str) : assigns value v -> dequote value = v.
Proof.
  intros [[Hu ->]|[q [Hq [->|[-> ->]]]]].
  - now apply dequote_unquoted.
  - now apply dequote_quoted.
  - destruct Hq as [-> | ->]; reflexivity.
Qed.

(** Lines 45-68 in terms of the vocabulary. *)
Lemma read_option_spec (d : dict) (line : str) :
  read_option d line
  = match re_match _re_bool line with
    | Some m => Ok (set_item d (group m 1) (VBool true))
    | None =>
        match re_match _re_assign line with
        | Some m =>
            match strip (group m 2) with
            | [] => Err IndexError
            | _ :: _ =>
                Ok (record_value d (group m 1) (dequote (strip (group m 2))))
            end
        | None => Ok d
        end
    end.
Proof.
  unfold read_option. destruct (re_match _re_bool line); [reflexivity|].
  destruct (re_match _re_assign line) as [m|]; [|reflexivity].
  destruct (strip (group m 2)) as [|v0 value]; [reflexivity|].
  unfold record_value, dequote.
  destruct (lookup (group m 1) d) as [[]|]; reflexivity.
Qed.

(** One turn of the loop, by the kind of the line. *)
Lemma read_line_classify (st : rstate) (l : str) :
  read_line st l
  = match classify l with
    | Header n => Ok (open_profile st n)
    | _ => rmap (with_current st) (scope_line (current st) l)
    end.
Proof.
  unfold scope_line, read_line, classify.
  destruct (strip l) as [|c0 rest].
  { simpl. now rewrite with_current_current. }
  destruct (Ascii.eqb c0 "#"%char).
  { simpl. now rewrite with_current_current. }
  destruct (Ascii.eqb c0 "["%char && Ascii.eqb (last (c0 :: rest) c0) "]"%char);
    [reflexivity|].
  assert (E : match st with
              | Top cfg => rmap Top (read_option cfg (c0 :: rest))
              | Prof cfg frozen subcfg =>
                  rmap (Prof cfg frozen) (read_option subcfg (c0 :: rest))
              end
              = rmap (with_current st) (read_option (current st) (c0 :: rest)))
    by now destruct st.
  rewrite E, read_option_spec.
  destruct (re_match _re_bool (c0 :: rest)); [reflexivity|].
  destruct (re_match _re_assign (c0 :: rest)) as [m|].
  - destruct (strip (group m 2)); reflexivity.
  - simpl. now rewrite with_current_current.
Qed.

Lemma is_header_spec (l : str) :
  is_header l = true <-> exists n, classify l = Header n.
Proof.
  unfold is_header. destruct (classify l); split; try discriminate; eauto;
    intros [n H]; discriminate.
Qed.

Lemma read_line_header (st : rstate) (l n : str) :
  classify l = Header n -> read_line st l = Ok (open_profile st n).
Proof. intros H. now rewrite read_line_classify, H. Qed.

Lemma read_line_scope (st : rstate) (l : str) :
  is_header l = false ->
  read_line st l = rmap (with_current st) (scope_line (current st) l).
Proof.
  intros H. rewrite read_line_classify. unfold is_header in H.
  now destruct (classify l).
Qed.

(** *** Lines of a given form *)

Lemma strip_line (w0 body w3 l : str) :
  spaces w0 -> spaces w3 -> trimmed body -> l = w0 ++ body ++ w3 ->
  strip l = body.
Proof. intros H0 H3 Hb ->. now apply strip_sandwich. Qed.

Lemma classify_option_line (l : str) (c0 : ascii) (rest : str) :
  strip l = c0 :: rest -> c0 <> "#"%char ->
  ~ (c0 = "["%char /\ last (c0 :: rest) " "%char = "]"%char) ->
  classify l
  = match re_match _re_bool (c0 :: rest) with
    | Some m => Flag (group m 1)
    | None =>
        match re_match _re_assign (c0 :: rest) with
        | Some m => Assignment (group m 1) (strip (group m 2))
        | None => Ignored
        end
    end.
Proof.
  intros E Hc Hh. unfold classify. rewrite E.
  destruct (Ascii.eqb_spec c0 "#"%char); [congruence|].
  destruct (Ascii.eqb_spec c0 "["%char) as [E1|]; [|reflexivity].
  destruct (Ascii.eqb_spec (last (c0 :: rest) c0) "]"%char) as [E2|];
    [|reflexivity].
  exfalso. apply Hh. split; [assumption|]. rewrite <- E2.
  apply last_cons_default.
Qed.

(** A token that is neither a comment nor a header is a flag. *)
Lemma classify_flag_token (w0 key w3 : str) :
  flag_token key -> spaces w0 -> spaces w3 ->
  classify (w0 ++ key ++ w3) = Flag key.
Proof.
  intros [Hk Hn Hc Hh] H0 H3. destruct key as [|c0 rest]; [congruence|].
  rewrite (classify_option_line _ c0 rest).
  - now rewrite re_bool_token.
  - apply strip_sandwich; trivial. now apply nonspaces_trimmed.
  - simpl in Hc. congruence.
  - intros [-> El]. apply Hh. now split.
Qed.

(** [key = value] with whitespace next to the equals sign is an
    assignment of [value] to [key]. *)
Lemma classify_assignment_parts (w0 key w1 w2 value w3 : str) :
  assignment_parts key w1 w2 value -> spaces w0 -> spaces w3 ->
  classify (w0 ++ key ++ w1 ++ equals :: w2 ++ value ++ w3)
  = Assignment key value.
Proof.
  intros [Hk Hn Hc H1 H2 Hv Ht Hl Hh Hs] H0 H3.
  assert (Hbody : trimmed (key ++ (w1 ++ equals :: w2) ++ value))
    by now apply trimmed_body.
  assert (E : strip (w0 ++ key ++ w1 ++ equals :: w2 ++ value ++ w3)
              = key ++ w1 ++ equals :: w2 ++ value).
  { transitivity (key ++ (w1 ++ equals :: w2) ++ value); [|now app_norm].
    apply (strip_line w0 _ w3); trivial. now app_norm. }
  assert (Hb : re_match _re_bool (key ++ w1 ++ equals :: w2 ++ value) = None).
  { destruct w1 as [|c w1].
    - destruct Hs as [|[Hw2 _]]; [congruence|].
      destruct w2 as [|c w2]; [congruence|]. inversion H2; subst.
      change (key ++ [] ++ equals :: (c :: w2) ++ value)
        with (key ++ [equals] ++ c :: w2 ++ value).
      rewrite app_assoc. apply re_bool_inner_space; [assumption|].
      now destruct w2, value.
    - inversion H1; subst. apply re_bool_inner_space; [assumption|].
      now destruct w1. }
  assert (Ha : re_match _re_assign (key ++ w1 ++ equals :: w2 ++ value)
               = Some [key; value]).
  { destruct w1 as [|c w1].
    - destruct Hs as [|[Hw2 Hv0]]; [congruence|].
      destruct value as [|v0 value]; [congruence|].
      apply (re_assign_tight key w2 (v0 :: value) v0); trivial.
      simpl in Hv0. congruence.
    - apply re_assign_spaced; trivial. discriminate. }
  destruct key as [|k0 key]; [congruence|].
  rewrite (classify_option_line _ k0 (key ++ w1 ++ equals :: w2 ++ value) E).
  - change (k0 :: key ++ w1 ++ equals :: w2 ++ value)
      with ((k0 :: key) ++ w1 ++ equals :: w2 ++ value).
    rewrite Hb, Ha. unfold group. simpl nth. now rewrite (strip_trimmed _ Ht).
  - simpl in Hc. congruence.
  - intros [-> El]. apply Hh. split; [reflexivity|].
    destruct value as [|v0 value]; [congruence|]. rewrite <- El.
    replace ("["%char :: key ++ w1 ++ equals :: w2 ++ v0 :: value)
      with (("["%char :: key ++ w1 ++ equals :: w2) ++ v0 :: value)
      by now app_norm.
    now rewrite last_app_cons.
Qed.

(** [key =] with whitespace before the equals sign and an empty rest is
    an assignment of the empty string. *)
Lemma classify_empty_value (w0 key w1 w3 : str) :
  key <> [] -> nonspaces key -> hd_error key <> Some "#"%char ->
  spaces w0 -> spaces w1 -> w1 <> [] -> spaces w3 ->
  classify (w0 ++ key ++ w1 ++ [equals] ++ w3) = Assignment key [].
Proof.
  intros Hk Hn Hc H0 H1 Hw1 H3.
  assert (Hbody : trimmed (key ++ w1 ++ [equals])).
  { apply trimmed_body; trivial; [discriminate|]. now split. }
  assert (E : strip (w0 ++ key ++ w1 ++ [equals] ++ w3)
              = key ++ w1 ++ [equals]).
  { apply (strip_line w0 _ w3); trivial. now app_norm. }
  destruct key as [|k0 key]; [congruence|].
  rewrite (classify_option_line _ k0 (key ++ w1 ++ [equals]) E).
  - destruct w1 as [|c w1]; [congruence|]. inversion H1; subst.
    change (k0 :: key ++ (c :: w1) ++ [equals])
      with ((k0 :: key) ++ c :: w1 ++ [equals]).
    rewrite re_bool_inner_space by (trivial; now destruct w1).
    change ((k0 :: key) ++ c :: w1 ++ [equals])
      with ((k0 :: key) ++ (c :: w1) ++ equals :: [] ++ []).
    rewrite re_assign_spaced; trivial; try discriminate; constructor.
  - simpl in Hc. congruence.
  - intros [_ El].
    replace (k0 :: key ++ w1 ++ [equals])
      with ((k0 :: key ++ w1) ++ [equals]) in El by now app_norm.
    rewrite last_last in El. discriminate.
Qed.

(** A line without whitespace is one token, whatever the place of its
    equals signs. *)
Lemma classify_unspaced (key value : str) :
  key <> [] -> nonspaces key -> nonspaces value ->
  hd_error key <> Some "#"%char ->
  ~ (hd_error key = Some "["%char
     /\ last (equals :: value) " "%char = "]"%char) ->
  classify (key ++ equals :: value) = Flag (key ++ equals :: value).
Proof.
  intros Hk Hn Hv Hc Hh.
  generalize (classify_flag_token [] (key ++ equals :: value) []).
  simpl app. rewrite app_nil_r. intros H. apply H; try constructor.
  - now destruct key.
  - apply Forall_app. split; [assumption|now constructor].
  - now destruct key.
  - intros [E El]. apply Hh. destruct key as [|k0 key]; [congruence|].
    split; [exact E|]. rewrite <- El. now rewrite last_app_cons.
Qed.

(* ================================================================= *)
(** ** Quoted and unquoted values *)

(** On every line that [read] takes for an assignment, with [value]
    the trimmed right-hand side: a value wrapped in a matching pair of
    double quotes or of single quotes is recorded without that one pair
    of quotes, and a value whose two ends are not the same quote
    character is recorded as it is, a leading quote included.  A value
    that is one quote character is in neither case: see below. *)
Theorem read_strips_one_level_of_quotes (st : rstate) (l name value : str) :
  classify l = Assignment name value ->
  (forall q inner, is_quote q -> value = q :: inner ++ [q] ->
     read_line st l
     = Ok (with_current st (record_value (current st) name inner)))
  /\ (value <> [] -> unquoted value ->
     read_line st l
     = Ok (with_current st (record_value (current st) name value))).
Proof.
  intros Hc. rewrite read_line_classify. unfold scope_line. rewrite Hc. split.
  - intros q inner Hq ->. cbv beta iota. now rewrite dequote_quoted.
  - intros Hv Hu. destruct value as [|v0 value]; [congruence|].
    cbv beta iota. now rewrite dequote_unquoted.
Qed.

(** A value that is one quote character has the same character at both
    ends: the slice leaves the empty string. *)
Lemma read_lone_quote :
  read [!"x = '"] = Ok [(!"x", VStr [])].
Proof. reflexivity. Qed.

(** An assignment line whose trimmed value is one quote character,
    double or single, records the empty string: the test of line 57
    compares [value[0]] with [value[-1]], which for a value of one
    character is that same character, and the slice [value[1:-1]] of
    line 58 is empty. *)
Lemma read_line_lone_quote
  (st : rstate) (w0 key w1 w2 w3 : str) (q : ascii) :
  is_quote q -> assignment_parts key w1 w2 [q] -> spaces w0 -> spaces w3 ->
  read_line st (w0 ++ key ++ w1 ++ equals :: w2 ++ [q] ++ w3)
  = Ok (with_current st (record_value (current st) key [])).
Proof.
  intros Hq Hp H0 H3. rewrite read_line_classify. unfold scope_line.
  rewrite (classify_assignment_parts w0 key w1 w2 [q] w3 Hp H0 H3).
  cbv beta iota. destruct Hq as [-> | ->]; reflexivity.
Qed.

(** C7, the failing line: the value of the line [name = ] followed by
    one double quote is a quote that is opened and never closed, as in
    the claim's own example of a value that is recorded literally.  The
    line is an assignment whose trimmed value is that one character,
    and [read] records the empty string for it, not the quote character;
    with one more character after the quote the value is recorded
    literally.  A lone single quote behaves the same. *)
Theorem read_lone_quote_records_empty_string :
  classify (!"name = " ++ [dquote]) = Assignment !"name" [dquote]
  /\ read [!"name = " ++ [dquote]] = Ok [(!"name", VStr [])]
  /\ read [!"name = " ++ [dquote]] <> Ok [(!"name", VStr [dquote])]
  /\ read [!"name = " ++ dquote :: !"u"]
     = Ok [(!"name", VStr (dquote :: !"u"))]
  /\ read [!"name = " ++ [squote]] = Ok [(!"name", VStr [])].
Proof.
  split; [reflexivity|]. split; [reflexivity|]. split; [discriminate|].
  split; reflexivity.
Qed.

(* ================================================================= *)
(** ** Bare tokens and empty values *)

(** C4, the failing line: [key=value] has no whitespace, so it is one
    token for [_re_bool], which is tried first; [read] records the flag
    named [key=value] and no assignment to [key]. *)
Theorem read_unspaced_assignment_is_flag :
  classify !"key=value" = Flag !"key=value"
  /\ read [!"key=value"] = Ok [(!"key=value", VBool true)]
  /\ read [!"key=value"] <> Ok [(!"key", VStr !"value")].
Proof. split; [reflexivity|split; [reflexivity|discriminate]]. Qed.

Lemma read_lines_app (st : rstate) (a b : list str) :
  read_lines st (a ++ b) = st' <- read_lines st a ;; read_lines st' b.
Proof.
  revert st. induction a as [|l a IH]; intros st; simpl; [reflexivity|].
  destruct (read_line st l); simpl; [apply IH|reflexivity].
Qed.

(** C8. A line [key =] with whitespace before the equals sign and
    nothing but whitespace after it makes [read] raise [IndexError]:
    the line is taken for an assignment, its value is the empty string,
    and [value[0]] is evaluated first.  Nothing is recorded, the line is
    not skipped and no [ConfigError] is raised. *)
Theorem read_empty_value_raises_IndexError
  (st : rstate) (w0 key w1 w3 : str) :
  key <> [] -> nonspaces key -> hd_error key <> Some "#"%char ->
  spaces w0 -> spaces w1 -> w1 <> [] -> spaces w3 ->
  read_line st (w0 ++ key ++ w1 ++ [equals] ++ w3) = Err IndexError
  /\ (forall pre post,
        read_lines (Top []) pre = Ok st ->
        read (pre ++ (w0 ++ key ++ w1 ++ [equals] ++ w3) :: post)
        = Err IndexError).
Proof.
  intros Hk Hn Hc H0 H1 Hw1 H3.
  assert (Hline :
    read_line st (w0 ++ key ++ w1 ++ [equals] ++ w3) = Err IndexError).
  { rewrite read_line_classify. unfold scope_line.
    now rewrite (classify_empty_value w0 key w1 w3). }
  split; [exact Hline|].
  intros pre post Hpre. unfold read.
  rewrite read_lines_app, Hpre. cbn [bind read_lines]. now rewrite Hline.
Qed.

(* ================================================================= *)
(** ** When [read] returns *)

Lemma read_line_returns (st : rstate) (l : str) :
  (forall n, classify l <> Assignment n []) ->
  exists st', read_line st l = Ok st'.
Proof.
  intros H. rewrite read_line_classify. unfold scope_line.
  destruct (classify l) as [|n|n|n value|]; simpl; eauto.
  destruct value; simpl; [now elim (H n)|eauto].
Qed.

Lemma read_line_error (st : rstate) (l : str) (e : exn) :
  read_line st l = Err e ->
  e = IndexError /\ exists n, classify l = Assignment n [].
Proof.
  rewrite read_line_classify. unfold scope_line.
  destruct (classify l) as [|n|n|n value|]; simpl; try discriminate.
  destruct value; simpl; [|discriminate]. intros [= <-]. eauto.
Qed.

(** [read] returns for every file without an assignment of the empty
    string. *)
Lemma read_returns (lines : list str) :
  no_empty_value lines -> exists cfg, read lines = Ok cfg.
Proof.
  intros H. unfold read.
  assert (Hl : forall st, exists st', read_lines st lines = Ok st').
  { induction H as [|l lines Hl _ IH]; intros st; simpl; [eauto|].
    destruct (read_line_returns st l Hl) as [st1 ->]. simpl. apply IH. }
  destruct (Hl (Top [])) as [st' ->]. simpl. eauto.
Qed.

(** The only error of [read] is the [IndexError] of such a line. *)
Lemma read_error (lines : list str) (e : exn) :
  read lines = Err e -> e = IndexError /\ ~ no_empty_value lines.
Proof.
  unfold read, rmap.
  assert (Hl : forall st, read_lines st lines = Err e ->
                          e = IndexError /\ ~ no_empty_value lines).
  { induction lines as [|l lines IH]; intros st; simpl; [discriminate|].
    destruct (read_line st l) as [st1|e1] eqn:E; simpl.
    - intros H. destruct (IH st1 H) as [-> Hn]. split; [reflexivity|].
      intros Hall. apply Hn. now inversion Hall.
    - intros [= <-]. destruct (read_line_error st l e1 E) as [-> [n Hn]].
      split; [reflexivity|]. intros Hall. inversion Hall as [|? ? Hl' _]; subst.
      now elim (Hl' n). }
  destruct (read_lines (Top []) lines) as [st|e1] eqn:E; simpl; [discriminate|].
  intros [= <-]. now apply (Hl (Top [])).
Qed.

(* ================================================================= *)
(** ** Profile headers and the lines of a scope *)

Lemma read_lines_block (st : rstate) (blk : list str) :
  no_header blk ->
  read_lines st blk = rmap (with_current st) (read_block (current st) blk).
Proof.
  intros H. revert st. induction H as [|l blk Hl _ IH]; intros st.
  - simpl. now rewrite with_current_current.
  - simpl. rewrite (read_line_scope st l Hl).
    destruct (scope_line (current st) l) as [d|e]; simpl; [|reflexivity].
    rewrite IH, current_with_current.
    destruct (read_block d blk); simpl; [|reflexivity].
    now rewrite with_current_twice.
Qed.

(** A file without headers is one block. *)
Lemma read_block_alone (blk : list str) :
  no_header blk -> read blk = read_block [] blk.
Proof.
  intros H. unfold read. rewrite (read_lines_block (Top []) blk H). simpl.
  now destruct (read_block [] blk).
Qed.

Lemma bound_frozen_line (name : str) (d : dict) (st st' : rstate) (l : str) :
  classify l <> Header name ->
  bound_frozen name d st -> read_line st l = Ok st' ->
  bound_frozen name d st'.
Proof.
  intros Hl Hb. destruct (is_header l) eqn:Eh.
  - apply is_header_spec in Eh. destruct Eh as [n En].
    rewrite (read_line_header st l n En). intros [= <-].
    destruct st as [|cfg frozen cur]; [contradiction|].
    destruct Hb as [a [Ha [Hlt Hn]]]. exists a. simpl. split; [|split].
    + rewrite lookup_set_item_neq; [assumption|]. congruence.
    + rewrite length_app. simpl. lia.
    + now rewrite app_nth1.
  - rewrite (read_line_scope st l Eh).
    destruct (scope_line (current st) l); simpl; [|discriminate].
    intros [= <-]. now destruct st.
Qed.

Lemma bound_frozen_lines (name : str) (d : dict) (lines : list str) :
  forall st st', not_reopened name lines -> bound_frozen name d st ->
                 read_lines st lines = Ok st' -> bound_frozen name d st'.
Proof.
  induction lines as [|l lines IH]; intros st st' Hn Hb; simpl.
  - now intros [= <-].
  - inversion Hn as [|? ? Hl Hn']; subst.
    destruct (read_line st l) as [st1|] eqn:E; simpl; [|discriminate].
    apply IH; trivial. now apply (bound_frozen_line name d st st1 l).
Qed.

Lemma bound_frozen_reify (name : str) (d : dict) (st : rstate) :
  bound_frozen name d st -> lookup name (reify st) = Some (VDict d).
Proof.
  destruct st as [|cfg frozen cur]; [contradiction|].
  intros [a [Ha [Hlt Hn]]]. unfold reify.
  rewrite (lookup_map
             (fun s => match s with
                       | SVal v => v
                       | SRef a => VDict (nth a (frozen ++ [cur]) [])
                       end)).
  rewrite Ha. simpl. now rewrite app_nth1, Hn.
Qed.

(** After a header, its block and the rest of the file, the profile is
    bound to what the block alone defines, whatever came before. *)
Lemma read_last_opening (st0 st' : rstate) (h name : str)
  (blk post : list str) :
  classify h = Header name -> no_header blk -> starts_scope post ->
  not_reopened name post ->
  read_lines st0 (h :: blk ++ post) = Ok st' ->
  exists d, read_block [] blk = Ok d
            /\ lookup name (reify st') = Some (VDict d).
Proof.
  intros Hh Hblk Hpost Hn. cbn [read_lines].
  rewrite (read_line_header st0 h name Hh). cbn [bind].
  rewrite read_lines_app.
  assert (Hopen : exists cfg frozen,
             open_profile st0 name = Prof cfg frozen []
             /\ lookup name cfg = Some (SRef (List.length frozen))).
  { destruct st0 as [cfg|cfg frozen cur]; simpl.
    - eexists _, []. split; [reflexivity|]. apply lookup_set_item_eq.
    - eexists _, _. split; [reflexivity|].
      rewrite lookup_set_item_eq, length_app. simpl. f_equal. f_equal. lia. }
  destruct Hopen as [cfg [frozen [-> Hcfg]]].
  rewrite (read_lines_block _ _ Hblk). simpl current.
  destruct (read_block [] blk) as [d|] eqn:Eb; simpl; [|discriminate].
  intros Hrest. exists d. split; [reflexivity|].
  destruct post as [|h' post].
  - simpl in Hrest. injection Hrest as <-. simpl.
    rewrite (lookup_map
               (fun s => match s with
                         | SVal v => v
                         | SRef a => VDict (nth a (frozen ++ [d]) [])
                         end)).
    rewrite Hcfg. simpl. now rewrite nth_middle.
  - simpl in Hpost. apply is_header_spec in Hpost. destruct Hpost as [n' Hn'].
    inversion Hn as [|? ? Hh' Hrest']; subst.
    cbn [read_lines] in Hrest. rewrite (read_line_header _ h' n' Hn') in Hrest.
    cbn [bind open_profile] in Hrest.
    apply (bound_frozen_reify name d).
    refine (bound_frozen_lines name d post _ st' Hrest' _ Hrest).
    exists (List.length frozen). split; [|split].
    + rewrite lookup_set_item_neq; [assumption|]. congruence.
    + rewrite length_app. simpl. lia.
    + now rewrite nth_middle.
Qed.

(* ================================================================= *)
(** ** A profile header that appears twice *)

(** C9. When the header of a profile appears twice, [read] binds the
    profile's name to the options of the second block only: the mapping
    is the one the lines of that block define by themselves, and nothing
    that was recorded after the first header is in it.  [read] returns
    such a mapping for every file without an assignment of the empty
    string (which raises, C8). *)
Theorem read_second_header_rebinds
  (pre mid blk post : list str) (h1 h2 name : str) :
  classify h1 = Header name -> classify h2 = Header name ->
  no_header blk -> starts_scope post -> not_reopened name post ->
  let lines := pre ++ h1 :: mid ++ h2 :: blk ++ post in
  (no_empty_value lines -> exists cfg, read lines = Ok cfg)
  /\ (forall cfg,
        read lines = Ok cfg ->
        exists d, read blk = Ok d /\ lookup name cfg = Some (VDict d)).
Proof.
  intros _ H2 Hblk Hpost Hn lines. split; [apply read_returns|].
  intros cfg Hread. unfold lines, read, rmap in Hread.
  replace (pre ++ h1 :: mid ++ h2 :: blk ++ post)
    with ((pre ++ h1 :: mid) ++ h2 :: blk ++ post) in Hread by now app_norm.
  rewrite read_lines_app in Hread.
  destruct (read_lines (Top []) (pre ++ h1 :: mid)) as [st0|];
    cbn [bind] in Hread; [|discriminate].
  destruct (read_lines st0 (h2 :: blk ++ post)) as [st'|] eqn:E;
    cbn [bind] in Hread; [|discriminate].
  injection Hread as <-.
  destruct (read_last_opening st0 st' h2 name blk post H2 Hblk Hpost Hn E)
    as [d [Hd Hl]].
  exists d. rewrite (read_block_alone blk Hblk). now split.
Qed.

(* ================================================================= *)
(** ** A flag that is later assigned a value *)

Lemma scope_line_other (key : str) (d d' : dict) (l : str) :
  line_name l <> Some key -> scope_line d l = Ok d' ->
  lookup key d' = lookup key d.
Proof.
  unfold line_name, scope_line.
  destruct (classify l) as [|n|n|n value|]; try (now intros _ [= <-]).
  - intros Hn [= <-]. apply lookup_set_item_neq. congruence.
  - intros Hn. destruct value; [discriminate|]. intros [= <-].
    unfold record_value. destruct (lookup n d) as [[]|];
      apply lookup_set_item_neq; congruence.
Qed.

Lemma read_block_other (key : str) (blk : list str) :
  forall d d', Forall (fun l => line_name l <> Some key) blk ->
               read_block d blk = Ok d' -> lookup key d' = lookup key d.
Proof.
  induction blk as [|l blk IH]; intros d d' H; simpl.
  - now intros [= <-].
  - inversion H as [|? ? Hl Hb]; subst.
    destruct (scope_line d l) as [d1|] eqn:E; simpl; [|discriminate].
    intros Hr. rewrite (IH d1 d' Hb Hr). now apply (scope_line_other key d d1 l).
Qed.

Lemma read_block_app (d : dict) (a b : list str) :
  read_block d (a ++ b) = d' <- read_block d a ;; read_block d' b.
Proof.
  revert d. induction a as [|l a IH]; intros d; simpl; [reflexivity|].
  destruct (scope_line d l); simpl; [apply IH|reflexivity].
Qed.

(** Within one block: flag, then assignment, nothing else for the key. *)
Lemma read_block_flag_then_assignment
  (key value fl al : str) (a b c : list str) (d0 d : dict) :
  classify fl = Flag key -> classify al = Assignment key value ->
  Forall (fun l => line_name l <> Some key) (a ++ b ++ c) ->
  lookup key d0 = None ->
  read_block d0 (a ++ fl :: b ++ al :: c) = Ok d ->
  lookup key d = Some (VList [VBool true; VStr (dequote value)]).
Proof.
  intros Hf Ha Hother Hd0.
  apply Forall_app in Hother. destruct Hother as [Hoa Hbc].
  apply Forall_app in Hbc. destruct Hbc as [Hob Hoc].
  rewrite read_block_app.
  destruct (read_block d0 a) as [d1|] eqn:E1; cbn [bind]; [|discriminate].
  cbn [read_block]. unfold scope_line at 1. rewrite Hf. cbn [bind].
  rewrite read_block_app.
  destruct (read_block (set_item d1 key (VBool true)) b) as [d2|] eqn:E2;
    cbn [bind]; [|discriminate].
  cbn [read_block]. unfold scope_line at 1. rewrite Ha.
  destruct value as [|v0 value]; [discriminate|]. cbn [bind]. intros E3.
  rewrite (read_block_other key c _ _ Hoc E3).
  assert (L2 : lookup key d2 = Some (VBool true)).
  { rewrite (read_block_other key b _ _ Hob E2). apply lookup_set_item_eq. }
  unfold record_value. rewrite L2. apply lookup_set_item_eq.
Qed.

Lemma bound_plain_line (key : str) (x : value) (st st' : rstate) (l : str) :
  classify l <> Header key ->
  bound_plain key x st -> read_line st l = Ok st' -> bound_plain key x st'.
Proof.
  intros Hl Hb. destruct (is_header l) eqn:Eh.
  - apply is_header_spec in Eh. destruct Eh as [n En].
    rewrite (read_line_header st l n En). intros [= <-].
    destruct st as [|cfg frozen cur]; [contradiction|]. simpl in *.
    rewrite lookup_set_item_neq; [assumption|]. congruence.
  - rewrite (read_line_scope st l Eh).
    destruct (scope_line (current st) l); simpl; [|discriminate].
    intros [= <-]. now destruct st.
Qed.

Lemma bound_plain_lines (key : str) (x : value) (lines : list str) :
  forall st st', not_reopened key lines -> bound_plain key x st ->
                 read_lines st lines = Ok st' -> bound_plain key x st'.
Proof.
  induction lines as [|l lines IH]; intros st st' Hn Hb; simpl.
  - now intros [= <-].
  - inversion Hn as [|? ? Hl Hn']; subst.
    destruct (read_line st l) as [st1|] eqn:E; simpl; [|discriminate].
    apply IH; trivial. now apply (bound_plain_line key x st st1 l).
Qed.

(** What the first block of a file gives an option stays at the top
    level, unless a later profile takes the option's name. *)
Lemma read_first_block (key : str) (blk post : list str) (cfg : dict) :
  no_header blk -> starts_scope post -> not_reopened key post ->
  read (blk ++ post) = Ok cfg ->
  exists d, read_block [] blk = Ok d
            /\ forall x, lookup key d = Some x -> lookup key cfg = Some x.
Proof.
  intros Hblk Hpost Hn Hread. unfold read, rmap in Hread.
  rewrite read_lines_app, (read_lines_block _ _ Hblk) in Hread.
  unfold rmap in Hread. cbn [current with_current] in Hread.
  destruct (read_block [] blk) as [d|]; cbn [bind] in Hread; [|discriminate].
  exists d. split; [reflexivity|]. intros x Hx.
  destruct post as [|h post].
  - cbn [read_lines bind] in Hread. now injection Hread as <-.
  - simpl in Hpost. apply is_header_spec in Hpost. destruct Hpost as [n Hhn].
    inversion Hn as [|? ? Hh Hn']; subst.
    cbn [read_lines] in Hread. rewrite (read_line_header _ h n Hhn) in Hread.
    cbn [bind open_profile] in Hread.
    destruct (read_lines _ post) as [st'|] eqn:E; cbn [bind] in Hread;
      [|discriminate].
    injection Hread as <-.
    assert (Hb : bound_plain key x st').
    { refine (bound_plain_lines key x post _ st' Hn' _ E). simpl.
      rewrite lookup_set_item_neq by congruence.
      now rewrite (lookup_map SVal), Hx. }
    destruct st' as [|cfg' frozen cur]; [contradiction|]. simpl in *.
    rewrite (lookup_map
               (fun s => match s with
                         | SVal v => v
                         | SRef a => VDict (nth a (frozen ++ [cur]) [])
                         end)).
    now rewrite Hb.
Qed.

(** C10. When a key is first a bare flag line of a scope and later, in
    the same scope, the key of an assignment, and no other line of the
    scope names it, [read] returns for the key the list of the boolean
    true and the assigned string: at the top level of the mapping when
    the scope is the beginning of the file, in the profile's mapping when
    the scope is the block of a profile header.  [read] returns for
    every such file without an assignment of the empty string. *)
Theorem read_flag_then_assignment
  (key value v fl al : str) (a b c : list str) :
  classify fl = Flag key -> classify al = Assignment key value ->
  assigns value v ->
  no_header (a ++ b ++ c) ->
  Forall (fun l => line_name l <> Some key) (a ++ b ++ c) ->
  let blk := a ++ fl :: b ++ al :: c in
  (forall post,
      starts_scope post -> not_reopened key post ->
      (no_empty_value (blk ++ post) -> exists cfg, read (blk ++ post) = Ok cfg)
      /\ (forall cfg,
            read (blk ++ post) = Ok cfg ->
            lookup key cfg = Some (VList [VBool true; VStr v])))
  /\ (forall pre h name post,
      classify h = Header name -> starts_scope post ->
      not_reopened name post ->
      (no_empty_value (pre ++ h :: blk ++ post) ->
       exists cfg, read (pre ++ h :: blk ++ post) = Ok cfg)
      /\ (forall cfg,
            read (pre ++ h :: blk ++ post) = Ok cfg ->
            exists d, lookup name cfg = Some (VDict d)
                      /\ lookup key d = Some (VList [VBool true; VStr v]))).
Proof.
  intros Hf Ha Hv Hnh Hother blk.
  assert (Hblk : no_header blk).
  { unfold no_header in *. apply Forall_app in Hnh. destruct Hnh as [Hna Hbc].
    apply Forall_app in Hbc. destruct Hbc as [Hnb Hnc].
    apply Forall_app. split; [exact Hna|]. constructor.
    { unfold is_header. now rewrite Hf. }
    apply Forall_app. split; [exact Hnb|]. constructor; [|exact Hnc].
    unfold is_header. now rewrite Ha. }
  assert (Hd : forall d, read_block [] blk = Ok d ->
                         lookup key d = Some (VList [VBool true; VStr v])).
  { intros d Hr. rewrite <- (dequote_assigns value v Hv).
    now apply (read_block_flag_then_assignment key value fl al a b c [] d). }
  split.
  - intros post Hpost Hn. split; [apply read_returns|]. intros cfg Hread.
    destruct (read_first_block key blk post cfg Hblk Hpost Hn Hread)
      as [d [Hr Hx]].
    apply Hx. now apply Hd.
  - intros pre h name post Hh Hpost Hn. split; [apply read_returns|].
    intros cfg Hread. unfold read, rmap in Hread.
    rewrite read_lines_app in Hread.
    destruct (read_lines (Top []) pre) as [st0|]; cbn [bind] in Hread;
      [|discriminate].
    destruct (read_lines st0 (h :: blk ++ post)) as [st'|] eqn:E;
      cbn [bind] in Hread; [|discriminate].
    injection Hread as <-.
    destruct (read_last_opening st0 st' h name blk post Hh Hblk Hpost Hn E)
      as [d [Hr Hl]].
    exists d. split; [exact Hl|]. now apply Hd.
Qed.

(* ================================================================= *)
(** ** [validate] *)

Section ValidateItems.
Variable entry : str -> value -> result value.

Lemma validate_items_app (a b : list (str * value)) (res : dict) :
  validate_items entry (a ++ b) res
  = r <- validate_items entry a res ;; validate_items entry b r.
Proof.
  revert res. induction a as [|[k x] a IH]; intros res; simpl; [reflexivity|].
  destruct (entry k x); simpl; [apply IH|reflexivity].
Qed.

(** The loop returns exactly when every entry is accepted. *)
Lemma validate_items_ok (items : list (str * value)) (res : dict) :
  (exists out, validate_items entry items res = Ok out)
  <-> Forall (fun kv => exists y, entry (fst kv) (snd kv) = Ok y) items.
Proof.
  revert res. induction items as [|[k x] items IH]; intros res; simpl.
  - split; [constructor|eauto].
  - destruct (entry k x) as [y|e] eqn:E; simpl.
    + rewrite IH. split; intros H.
      * constructor; [simpl; eauto|exact H].
      * now inversion H.
    + split.
      * intros [out H]. discriminate.
      * intros H. inversion H as [|? ? [y Hy] _]; subst. simpl in Hy.
        congruence.
Qed.

Lemma validate_items_lookup_other (name : str) (items : list (str * value)) :
  forall res out, ~ In name (keys items) ->
                  validate_items entry items res = Ok out ->
                  lookup name out = lookup name res.
Proof.
  induction items as [|[k x] items IH]; intros res out Hn; simpl.
  - now intros [= <-].
  - destruct (entry k x) as [y|]; simpl; [|discriminate]. intros H.
    rewrite (IH _ _ (fun Hin => Hn (or_intror Hin)) H).
    apply lookup_set_item_neq. intros ->. apply Hn. now left.
Qed.

Lemma validate_items_NoDup (items : list (str * value)) :
  forall res out, NoDup (keys res) ->
                  validate_items entry items res = Ok out ->
                  NoDup (keys out).
Proof.
  induction items as [|[k x] items IH]; intros res out Hn; simpl.
  - now intros [= <-].
  - destruct (entry k x) as [y|]; simpl; [|discriminate].
    apply IH. now apply NoDup_set_item.
Qed.

(** A property of the accepted entries is a property of the result. *)
Lemma validate_items_invariant (P : str -> value -> Prop)
  (items : list (str * value)) :
  forall res out,
    (forall k x y, In (k, x) items -> entry k x = Ok y -> P k y) ->
    (forall k v, In (k, v) res -> P k v) ->
    validate_items entry items res = Ok out ->
    forall k v, In (k, v) out -> P k v.
Proof.
  induction items as [|[k0 x] items IH]; intros res out Hi Hr; simpl.
  - now intros [= <-].
  - destruct (entry k0 x) as [y|] eqn:E; simpl; [|discriminate].
    apply IH.
    + intros k x' y' Hin. apply Hi. now right.
    + intros k v Hin. apply In_set_item in Hin.
      destruct Hin as [[-> ->]|Hin]; [|now apply Hr].
      apply (Hi k0 x y); [now left|exact E].
Qed.
End ValidateItems.

Lemma validate_entry_option (defaults : dict) (name : str) (v : value) :
  type_of v <> TDict ->
  validate_entry defaults name v = validate_option defaults name v.
Proof. destruct v; simpl; congruence. Qed.

(** C6. A single-string option that maps to a list makes [validate]
    fail: it never returns, and when the entries before it are accepted
    the error is the [ConfigError] for that key with the reason
    "Multiple values not allowed".  A list option that maps to a boolean
    or a string is accepted: the entry does not make [validate] fail, and
    the result holds the one-element list of that value. *)
Theorem validate_scalar_list_mismatch (defaults pre post : dict) (name : str) :
  (forall items s,
      lookup name defaults = Some (VStr s) ->
      let raw := pre ++ (name, VList items) :: post in
      (forall res, validate raw defaults <> Ok res)
      /\ (forall r, validate pre defaults = Ok r ->
                    validate raw defaults
                    = Err (ConfigError (VStr name)
                             (Some (VStr (join !", " (map repr items))))
                             (Some !"Multiple values not allowed"))))
  /\ (forall v l,
      lookup name defaults = Some (VList l) ->
      type_of v = TBool \/ type_of v = TStr ->
      let raw := pre ++ (name, v) :: post in
      ((exists r, validate (pre ++ post) defaults = Ok r) ->
       exists res, validate raw defaults = Ok res)
      /\ (forall res, NoDup (keys raw) -> validate raw defaults = Ok res ->
                      lookup name res = Some (VList [v]))).
Proof.
  split.
  - intros items s Hd raw.
    assert (He : validate_entry defaults name (VList items)
                 = Err (ConfigError (VStr name)
                          (Some (VStr (join !", " (map repr items))))
                          (Some !"Multiple values not allowed"))).
    { simpl. unfold validate_option. now rewrite Hd. }
    split.
    + intros res H.
      assert (Hall : exists out, validate raw defaults = Ok out) by eauto.
      apply validate_items_ok in Hall. apply Forall_app in Hall.
      destruct Hall as [_ Hall]. inversion Hall as [|? ? [y Hy] _]; subst.
      simpl fst in Hy. simpl snd in Hy. congruence.
    + intros r Hr. unfold validate, raw in *. rewrite validate_items_app, Hr.
      cbn [bind validate_items]. now rewrite He.
  - intros v l Hd Hv raw.
    assert (He : validate_entry defaults name v = Ok (VList [v])).
    { rewrite validate_entry_option by (destruct Hv; congruence).
      unfold validate_option. rewrite Hd.
      destruct v; simpl in *; trivial; destruct Hv; discriminate. }
    split.
    + intros Hr. apply validate_items_ok. apply validate_items_ok in Hr.
      apply Forall_app in Hr. destruct Hr as [Hpre Hpost].
      apply Forall_app. split; [exact Hpre|]. constructor; [|exact Hpost].
      simpl. eauto.
    + intros res Hnd Hr. unfold validate, raw in *.
      rewrite validate_items_app in Hr.
      destruct (validate_items (validate_entry defaults) pre []) as [r1|];
        cbn [bind validate_items] in Hr; [|discriminate].
      rewrite He in Hr. cbn [bind] in Hr.
      assert (Hn : ~ In name (keys post)).
      { unfold keys in *. rewrite map_app in Hnd. simpl in Hnd.
        apply NoDup_remove_2 in Hnd. intros Hin. apply Hnd.
        apply in_or_app. now right. }
      rewrite (validate_items_lookup_other _ name post _ _ Hn Hr).
      apply lookup_set_item_eq.
Qed.

(** The message of the error of C6, as [ConfigError.__init__] builds
    it. *)
Lemma multiple_values_message :
  ConfigError_message (VStr !"name") (Some (VStr !"'a', 'b'"))
    (Some !"Multiple values not allowed")
  = !"name = 'a', 'b': Multiple values not allowed".
Proof. reflexivity. Qed.

(* ================================================================= *)
(** ** The shape of what [read] returns and [validate] accepts *)

Lemma flat_nil : flat [].
Proof. split; [constructor|intros ? ? []]. Qed.

Lemma flat_set_item (d : dict) (k : str) (v : value) :
  flat d -> type_of v <> TDict -> flat (set_item d k v).
Proof.
  intros [Hn Hf] Hv. split; [now apply NoDup_set_item|].
  intros k' v' Hin. apply In_set_item in Hin.
  destruct Hin as [[_ ->]|Hin]; [assumption|now apply (Hf k')].
Qed.

Lemma scope_line_flat (d d' : dict) (l : str) :
  flat d -> scope_line d l = Ok d' -> flat d'.
Proof.
  intros Hf. unfold scope_line.
  destruct (classify l) as [|n|n|n value|]; try (now intros [= <-]).
  - intros [= <-]. now apply flat_set_item.
  - destruct value; [discriminate|]. intros [= <-]. unfold record_value.
    destruct (lookup n d) as [[]|]; now apply flat_set_item.
Qed.

Lemma read_line_inv (st st' : rstate) (l : str) :
  read_inv st -> read_line st l = Ok st' -> read_inv st'.
Proof.
  intros Hi. destruct (is_header l) eqn:Eh.
  - apply is_header_spec in Eh. destruct Eh as [n En].
    rewrite (read_line_header st l n En). intros [= <-].
    destruct st as [cfg|cfg frozen cur]; simpl in *.
    + destruct Hi as [Hn Hf]. repeat split; try constructor.
      * apply NoDup_set_item. now rewrite (keys_map SVal).
      * intros k s Hin. apply In_set_item in Hin.
        destruct Hin as [[_ ->]|Hin]; [exact I|].
        apply in_map_iff in Hin. destruct Hin as [[k' v] [E Hin]].
        injection E as <- <-. simpl. now apply (Hf k').
      * intros ? ? [].
    + destruct Hi as [Hn [Hs [Hfr Hc]]]. repeat split; try constructor.
      * now apply NoDup_set_item.
      * intros k s Hin. apply In_set_item in Hin.
        destruct Hin as [[_ ->]|Hin]; [exact I|now apply (Hs k)].
      * apply Forall_app. split; [assumption|now constructor].
      * intros ? ? [].
  - rewrite (read_line_scope st l Eh).
    destruct (scope_line (current st) l) as [d|] eqn:E; simpl; [|discriminate].
    intros [= <-]. destruct st as [cfg|cfg frozen cur]; simpl in *.
    + now apply (scope_line_flat cfg d l).
    + destruct Hi as [Hn [Hs [Hfr Hc]]]. repeat split; trivial;
        now apply (scope_line_flat cur d l).
Qed.

Lemma read_lines_inv (lines : list str) :
  forall st st', read_inv st -> read_lines st lines = Ok st' -> read_inv st'.
Proof.
  induction lines as [|l lines IH]; intros st st' Hi; simpl.
  - now intros [= <-].
  - destruct (read_line st l) as [st1|] eqn:E; simpl; [|discriminate].
    apply IH. now apply (read_line_inv st st1 l).
Qed.

Lemma reify_shape (st : rstate) : read_inv st -> raw_shape (reify st).
Proof.
  destruct st as [cfg|cfg frozen cur]; simpl.
  - intros [Hn Hf]. split; [assumption|]. intros k v Hin. left.
    now apply (Hf k).
  - intros [Hn [Hs [Hfr Hc]]]. split.
    + now rewrite (keys_map
                     (fun s => match s with
                               | SVal v => v
                               | SRef a => VDict (nth a (frozen ++ [cur]) [])
                               end)).
    + intros k v Hin. apply in_map_iff in Hin.
      destruct Hin as [[k' s] [E Hin]]. injection E as <- <-.
      specialize (Hs k' s Hin). destruct s as [x|a]; simpl in *; [now left|].
      right. eexists. split; [reflexivity|].
      destruct (nth_in_or_default a (frozen ++ [cur]) []) as [Hin'| ->];
        [|exact flat_nil].
      assert (Hall : Forall flat (frozen ++ [cur]))
        by (apply Forall_app; split; [assumption|now constructor]).
      rewrite Forall_forall in Hall. now apply Hall.
Qed.

Lemma read_shape (lines : list str) (raw : dict) :
  read lines = Ok raw -> raw_shape raw.
Proof.
  unfold read, rmap.
  destruct (read_lines (Top []) lines) as [st|] eqn:E; simpl; [|discriminate].
  intros [= <-]. apply reify_shape.
  apply (read_lines_inv lines (Top []) st); [exact flat_nil|exact E].
Qed.

Lemma validate_option_ok (defaults : dict) (k : str) (v y : value) :
  type_of v <> TDict -> validate_option defaults k v = Ok y ->
  option_ok defaults k y.
Proof.
  intros Hv. unfold validate_option, option_ok.
  destruct (lookup k defaults) as [d|]; [|discriminate].
  destruct v, d; simpl; try discriminate; try congruence;
    intros [= <-]; split; try discriminate; eauto.
Qed.

Lemma validate_profile_ok (defaults d prof : dict) :
  flat d -> validate_items (validate_entry defaults) d [] = Ok prof ->
  profile_ok defaults prof.
Proof.
  intros [Hn Hf] Hv. split.
  - apply (validate_items_NoDup (validate_entry defaults) d [] prof);
      [constructor|exact Hv].
  - apply (validate_items_invariant (validate_entry defaults)
             (option_ok defaults) d [] prof);
      [|intros ? ? []|exact Hv].
    intros k x y Hin. rewrite validate_entry_option by now apply (Hf k).
    apply validate_option_ok. now apply (Hf k).
Qed.

Lemma validate_shape (defaults raw cfgfile : dict) :
  raw_shape raw -> validate raw defaults = Ok cfgfile ->
  well_validated defaults cfgfile.
Proof.
  intros [Hn Hs] Hv. split.
  - apply (validate_items_NoDup (validate_entry defaults) raw [] cfgfile);
      [constructor|exact Hv].
  - apply (validate_items_invariant (validate_entry defaults)
             (fun k v => option_ok defaults k v
                         \/ exists prof, v = VDict prof
                                         /\ profile_ok defaults prof)
             raw [] cfgfile); [|intros ? ? []|exact Hv].
    intros k x y Hin. destruct (Hs k x Hin) as [Hx|[d [-> Hd]]].
    + rewrite validate_entry_option by assumption. intros H. left.
      now apply (validate_option_ok defaults k x y).
    + simpl. unfold rmap.
      destruct (validate_items (validate_entry defaults) d []) as [prof|] eqn:E;
        simpl; [|discriminate].
      intros [= <-]. right. exists prof. split; [reflexivity|].
      now apply (validate_profile_ok defaults d prof).
Qed.

Lemma validated_file_wf (cfgfile defaults : dict) :
  validated_file cfgfile defaults -> well_validated defaults cfgfile.
Proof.
  intros [lines [raw [Hr Hv]]]. apply (validate_shape defaults raw); trivial.
  now apply (read_shape lines).
Qed.

(* ================================================================= *)
(** ** [combine] *)

Section Combine.
Variables cli cfgfile defaults : dict.

Lemma combine_base_lookup_other (name : str) (names : list str) :
  forall res, ~ In name names ->
              lookup name (combine_base cli cfgfile defaults names res)
              = lookup name res.
Proof.
  induction names as [|n names IH]; intros res Hn; simpl; [reflexivity|].
  rewrite IH by (intros H; apply Hn; now right).
  destruct (match lookup n cli with Some _ => _ | None => _ end);
    [|reflexivity].
  apply lookup_set_item_neq. intros ->. apply Hn. now left.
Qed.

Lemma combine_base_lookup (name : str) (v : value) (names : list str) :
  forall res, In name names -> base_value cli cfgfile defaults name = Some v ->
              lookup name (combine_base cli cfgfile defaults names res)
              = Some v.
Proof.
  induction names as [|n names IH]; intros res Hin Hv; [contradiction|].
  simpl. destruct (in_dec (list_eq_dec ascii_dec) name names) as [Hr|Hr].
  - now apply IH.
  - destruct Hin as [->|Hin]; [|contradiction].
    rewrite combine_base_lookup_other by assumption.
    fold (base_value cli cfgfile defaults name). rewrite Hv. apply lookup_set_item_eq.
Qed.

Lemma combine_base_keys (names : list str) :
  forall res, (forall n, In n names -> In n (keys defaults)) ->
              forall k, In k (keys (combine_base cli cfgfile defaults names res))
                        <-> In k (keys res) \/ In k names.
Proof.
  induction names as [|n names IH]; intros res Hd k; simpl; [tauto|].
  rewrite IH by (intros; apply Hd; now right).
  fold (base_value cli cfgfile defaults n).
  assert (Hn : exists v, base_value cli cfgfile defaults n = Some v).
  { destruct (proj1 (lookup_keys defaults n) (Hd n (or_introl eq_refl)))
      as [d Hdn].
    unfold base_value. destruct (lookup n cli); [eauto|].
    destruct (lookup n cfgfile); eauto. }
  destruct Hn as [v ->]. rewrite keys_set_item. intuition.
Qed.

Lemma combine_base_NoDup (names : list str) :
  forall res, NoDup (keys res) ->
              NoDup (keys (combine_base cli cfgfile defaults names res)).
Proof.
  induction names as [|n names IH]; intros res Hn; simpl; [assumption|].
  apply IH. destruct (match lookup n cli with Some _ => _ | None => _ end);
    [now apply NoDup_set_item|assumption].
Qed.

Lemma apply_profile_app (a b : list (str * value)) (res : dict) :
  apply_profile cli defaults (a ++ b) res
  = r <- apply_profile cli defaults a res ;; apply_profile cli defaults b r.
Proof.
  revert res. induction a as [|[k v] a IH]; intros res; simpl; [reflexivity|].
  destruct (lookup k cli); [destruct (lookup k defaults);
                            [destruct (negb _)|]|]; trivial.
Qed.

(** A profile of schema keys is applied without error. *)
Lemma apply_profile_total (items : list (str * value)) :
  forall res, (forall k, In k (keys items) -> In k (keys defaults)) ->
              exists res', apply_profile cli defaults items res = Ok res'.
Proof.
  induction items as [|[k v] items IH]; intros res Hd; simpl; [eauto|].
  assert (Hrest : forall k', In k' (keys items) -> In k' (keys defaults))
    by (intros; apply Hd; now right).
  destruct (proj1 (lookup_keys defaults k) (Hd k (or_introl eq_refl)))
    as [d ->].
  destruct (lookup k cli); [destruct (negb _)|]; now apply IH.
Qed.

Lemma apply_profile_lookup_other (name : str) (items : list (str * value)) :
  forall res res', ~ In name (keys items) ->
                   apply_profile cli defaults items res = Ok res' ->
                   lookup name res' = lookup name res.
Proof.
  induction items as [|[k v] items IH]; intros res res' Hn; simpl.
  - now intros [= <-].
  - assert (Hk : name <> k) by (intros ->; apply Hn; now left).
    assert (Hr : ~ In name (keys items)) by (intros H; apply Hn; now right).
    destruct (lookup k cli); [destruct (lookup k defaults);
                              [destruct (negb _)|discriminate]|];
      intros H; rewrite (IH _ _ Hr H); trivial;
      now apply lookup_set_item_neq.
Qed.

Lemma apply_profile_keys (items : list (str * value)) :
  forall res res', (forall k, In k (keys items) -> In k (keys res)) ->
                   apply_profile cli defaults items res = Ok res' ->
                   forall k, In k (keys res') <-> In k (keys res).
Proof.
  induction items as [|[n v] items IH]; intros res res' Hin; simpl.
  - now intros [= <-].
  - assert (Hset : forall k, In k (keys (set_item res n v)) <-> In k (keys res)).
    { intros k. rewrite keys_set_item. split; [|tauto].
      intros [->|H]; [apply Hin; now left|exact H]. }
    assert (Hrest : forall k, In k (keys items) -> In k (keys res))
      by (intros; apply Hin; now right).
    destruct (lookup n cli); [destruct (lookup n defaults);
                              [destruct (negb _)|discriminate]|];
      intros H k.
    + now apply (IH res res').
    + rewrite (IH (set_item res n v) res'); trivial.
      intros k' Hk'. apply Hset. now apply Hrest.
    + rewrite (IH (set_item res n v) res'); trivial.
      intros k' Hk'. apply Hset. now apply Hrest.
Qed.

Lemma apply_profile_NoDup (items : list (str * value)) :
  forall res res', NoDup (keys res) ->
                   apply_profile cli defaults items res = Ok res' ->
                   NoDup (keys res').
Proof.
  induction items as [|[n v] items IH]; intros res res' Hn; simpl.
  - now intros [= <-].
  - destruct (lookup n cli); [destruct (lookup n defaults);
                              [destruct (negb _)|discriminate]|];
      apply IH; trivial; now apply NoDup_set_item.
Qed.

(** Applying a profile of accepted options keeps the types. *)
Lemma apply_profile_typed (items : list (str * value)) :
  forall res res',
    (forall k v, In (k, v) items -> option_ok defaults k v) ->
    typed res defaults ->
    apply_profile cli defaults items res = Ok res' ->
    typed res' defaults.
Proof.
  induction items as [|[n v] items IH]; intros res res' Hok Ht; simpl.
  - now intros [= <-].
  - assert (Hrest : forall k x, In (k, x) items -> option_ok defaults k x)
      by (intros; apply Hok; now right).
    assert (Hset : typed (set_item res n v) defaults).
    { intros k d Hd. destruct (list_eq_dec ascii_dec k n) as [->|Hne].
      - rewrite lookup_set_item_eq. exists v. split; [reflexivity|].
        destruct (Hok n v (or_introl eq_refl)) as [_ [d' [Hd' Hty]]].
        congruence.
      - rewrite lookup_set_item_neq by assumption. now apply Ht. }
    destruct (lookup n cli); [destruct (lookup n defaults);
                              [destruct (negb _)|discriminate]|];
      now apply IH.
Qed.

Hypothesis Hwf : well_validated defaults cfgfile.

Lemma validated_profile (n : str) (prof : dict) :
  lookup n cfgfile = Some (VDict prof) -> profile_ok defaults prof.
Proof.
  intros H. apply lookup_In in H. destruct Hwf as [_ Hall].
  destruct (Hall n (VDict prof) H) as [[Ht _]|[p [E Hp]]].
  - now elim Ht.
  - now injection E as ->.
Qed.

Lemma profile_keys_in_schema (prof : dict) :
  profile_ok defaults prof ->
  forall k, In k (keys prof) -> In k (keys defaults).
Proof.
  intros [_ Hp] k Hk. apply lookup_keys in Hk. destruct Hk as [v Hv].
  apply lookup_In in Hv. destruct (Hp k v Hv) as [_ [d [Hd _]]].
  apply lookup_keys. eauto.
Qed.

Lemma apply_profiles_keys (profile_names : list value) :
  forall res res',
    NoDup (keys res) ->
    (forall k, In k (keys res) <-> In k (keys defaults)) ->
    apply_profiles cli cfgfile defaults profile_names res = Ok res' ->
    NoDup (keys res') /\ forall k, In k (keys res') <-> In k (keys defaults).
Proof.
  induction profile_names as [|pn pns IH]; intros res res' Hn Hk; simpl.
  - intros [= <-]. now split.
  - destruct pn as [b|n|l|d]; simpl; try discriminate.
    destruct (lookup n cfgfile) as [p|] eqn:En; simpl; [|discriminate].
    destruct p as [b|s|l|prof]; simpl; try discriminate.
    destruct (apply_profile cli defaults prof res) as [r1|] eqn:E1; simpl;
      [|discriminate].
    apply IH.
    + now apply (apply_profile_NoDup prof res).
    + intros k. rewrite <- Hk. apply (apply_profile_keys prof res r1); trivial.
      intros k' Hk'. apply Hk.
      apply (profile_keys_in_schema prof); trivial.
      now apply (validated_profile n).
Qed.

Lemma apply_profiles_typed (profile_names : list value) :
  forall res res',
    typed res defaults ->
    apply_profiles cli cfgfile defaults profile_names res = Ok res' ->
    typed res' defaults.
Proof.
  induction profile_names as [|pn pns IH]; intros res res' Ht; simpl.
  - now intros [= <-].
  - destruct pn as [b|n|l|d]; simpl; try discriminate.
    destruct (lookup n cfgfile) as [p|] eqn:En; simpl; [|discriminate].
    destruct p as [b|s|l|prof]; simpl; try discriminate.
    destruct (apply_profile cli defaults prof res) as [r1|] eqn:E1; simpl;
      [|discriminate].
    apply IH. apply (apply_profile_typed prof res r1); trivial.
    now destruct (validated_profile n prof En).
Qed.

(** Profiles that exist are applied without error. *)
Lemma apply_profiles_known (names : list str) :
  all_profiles cfgfile names ->
  forall res, exists res',
    apply_profiles cli cfgfile defaults (map VStr names) res = Ok res'.
Proof.
  induction 1 as [|n names [prof Hn] _ IH]; intros res; simpl; [eauto|].
  rewrite Hn. cbn [bind].
  destruct (apply_profile_total prof res
              (profile_keys_in_schema prof (validated_profile n prof Hn)))
    as [r1 ->].
  cbn [bind]. apply IH.
Qed.

(** The first selected name that the mapping does not have is reported. *)
Lemma apply_profiles_unknown (known rest : list str) (n : str) :
  all_profiles cfgfile known -> lookup n cfgfile = None ->
  forall res,
    apply_profiles cli cfgfile defaults (map VStr (known ++ n :: rest)) res
    = Err (ConfigError (VStr n) None (Some !"No such profile")).
Proof.
  induction 1 as [|m known [prof Hm] _ IH]; intros Hn res; simpl.
  - now rewrite Hn.
  - rewrite Hm. cbn [bind].
    destruct (apply_profile_total prof res
                (profile_keys_in_schema prof (validated_profile m prof Hm)))
      as [r1 ->].
    cbn [bind]. now apply IH.
Qed.

Lemma combine_base_typed :
  cli_typed cli defaults -> no_shadowing cli cfgfile defaults ->
  typed (combine_base cli cfgfile defaults (keys defaults) []) defaults.
Proof.
  intros Hc Hs k d Hd.
  assert (Hk : In k (keys defaults)) by (apply lookup_keys; eauto).
  assert (Hv : exists v, base_value cli cfgfile defaults k = Some v
                         /\ type_of v = type_of d).
  { unfold base_value. destruct (lookup k cli) as [c|] eqn:Ec.
    - exists c. split; [reflexivity|]. now apply (Hc k).
    - destruct (lookup k cfgfile) as [x|] eqn:Ex.
      + exists x. split; [reflexivity|].
        destruct Hwf as [_ Hall].
        destruct (Hall k x (lookup_In _ _ _ Ex))
          as [[_ [d' [Hd' Hty]]]|[prof [-> _]]].
        * congruence.
        * now elim (Hs k prof Hk Ec).
      + eauto. }
  destruct Hv as [v [Hv Hty]]. exists v. split; [|exact Hty].
  now apply combine_base_lookup.
Qed.
End Combine.

(** C2. The mapping [combine] returns for a validated file mapping has
    one entry for every schema key and no other key: applying the
    selected profiles adds none. *)
Theorem combine_keys_are_schema_keys (cli cfgfile defaults res : dict) :
  validated_file cfgfile defaults ->
  combine cli cfgfile defaults = Ok res ->
  NoDup (keys res) /\ forall k, In k (keys res) <-> In k (keys defaults).
Proof.
  intros Hv. apply validated_file_wf in Hv. unfold combine.
  destruct (match lookup !"profile" cli with
            | Some v => py_iter v
            | None => Ok []
            end) as [pns|]; simpl; [|discriminate].
  apply (apply_profiles_keys cli cfgfile defaults Hv pns).
  - apply combine_base_NoDup. constructor.
  - intros k. rewrite combine_base_keys by trivial. simpl. tauto.
Qed.

(* ================================================================= *)
(** ** Precedence of a selected profile and the CLI *)

(** C1, as the code has it.  With a validated file mapping, one
    selected profile that sets an option, and a CLI value for that
    option: [combine] returns, and the option resolves to the profile's
    value when the CLI value equals the schema default, to the CLI value
    when it differs from it.  So [verbose] with default false, true in
    the profile and false on the CLI resolves to true. *)
Theorem combine_profile_against_cli
  (cli cfgfile defaults prof : dict) (P name : str) (c d v : value) :
  validated_file cfgfile defaults ->
  lookup name defaults = Some d ->
  lookup P cfgfile = Some (VDict prof) ->
  lookup name prof = Some v ->
  lookup name cli = Some c ->
  lookup !"profile" cli = Some (VList [VStr P]) ->
  exists res, combine cli cfgfile defaults = Ok res
              /\ lookup name res = Some (if py_eq c d then v else c).
Proof.
  intros Hv Hd HP Hp Hc Hsel. apply validated_file_wf in Hv.
  pose proof (validated_profile cfgfile defaults Hv P prof HP) as Hok.
  unfold combine. rewrite Hsel. cbn [py_iter bind apply_profiles]. rewrite HP.
  cbn [bind].
  set (base := combine_base cli cfgfile defaults (keys defaults) []).
  destruct (apply_profile_total cli defaults prof base
              (profile_keys_in_schema defaults prof Hok)) as [r1 Hr1].
  rewrite Hr1. cbn [bind]. exists r1. split; [reflexivity|].
  assert (Hbase : lookup name base = Some c).
  { apply combine_base_lookup.
    - apply lookup_keys. eauto.
    - unfold base_value. now rewrite Hc. }
  apply lookup_In in Hp. destruct (in_split _ _ Hp) as [p1 [p2 E]].
  destruct Hok as [Hnd _]. rewrite E in Hnd, Hr1.
  destruct (NoDup_keys_split p1 p2 name v Hnd) as [H1 H2].
  rewrite apply_profile_app in Hr1.
  destruct (apply_profile cli defaults p1 base) as [ra|] eqn:Ea;
    cbn [bind] in Hr1; [|discriminate].
  pose proof (apply_profile_lookup_other cli defaults name p1 base ra H1 Ea)
    as La.
  cbn [apply_profile] in Hr1. rewrite Hc, Hd in Hr1.
  destruct (py_eq c d); cbn [negb] in Hr1;
    rewrite (apply_profile_lookup_other cli defaults name p2 _ r1 H2 Hr1).
  - apply lookup_set_item_eq.
  - congruence.
Qed.

(** C1 as stated fails: the CLI sets [verbose] to false, which is the
    schema default, and the selected profile's true is the result. *)
Lemma combine_default_cli_value_loses :
  (x <- read c1_lines ;; validate x schema) = Ok c1_cfgfile
  /\ combine c1_cli c1_cfgfile schema
     = Ok [(!"verbose", VBool true); (!"profile", VList [VStr !"P"])]
  /\ (r <- combine c1_cli c1_cfgfile schema ;; Ok (lookup !"verbose" r))
     <> Ok (Some (VBool false)).
Proof. split; [reflexivity|split; [reflexivity|discriminate]]. Qed.

(* ================================================================= *)
(** ** A profile and an option of one name *)

(** C3, the failing input: a file whose only line opens a profile named
    like the boolean option [verbose], and a CLI that gives no value for
    it.  [validate] accepts the mapping, and [combine] returns the
    profile's (empty) mapping as the value of [verbose]. *)
Theorem combine_profile_named_like_option :
  (x <- read c3_lines ;; validate x schema) = Ok [(!"verbose", VDict [])]
  /\ combine [] [(!"verbose", VDict [])] schema
     = Ok [(!"verbose", VDict []); (!"profile", VList [])]
  /\ type_of (VDict []) <> type_of (VBool false).
Proof. split; [reflexivity|split; [reflexivity|discriminate]]. Qed.

(** Apart from that case the types are kept: when the CLI values have
    the types of the schema and no schema key left to the file is the
    name of a profile, every value [combine] returns has the type of its
    default. *)
Lemma combine_types (cli cfgfile defaults res : dict) :
  validated_file cfgfile defaults ->
  cli_typed cli defaults -> no_shadowing cli cfgfile defaults ->
  combine cli cfgfile defaults = Ok res -> typed res defaults.
Proof.
  intros Hv Hc Hs. apply validated_file_wf in Hv. unfold combine.
  destruct (match lookup !"profile" cli with
            | Some v => py_iter v
            | None => Ok []
            end) as [pns|]; simpl; [|discriminate].
  apply (apply_profiles_typed cli cfgfile defaults Hv pns).
  now apply combine_base_typed.
Qed.

(** C5, the failing input: the file sets the flag [verbose] and the CLI
    selects a profile of that name.  The name is present in the validated
    mapping, so no [KeyError] is caught, and [profile.items()] on the
    boolean raises [AttributeError]. *)
Theorem combine_selected_option_raises_AttributeError :
  (x <- read c5_lines ;; validate x schema) = Ok [(!"verbose", VBool true)]
  /\ lookup !"verbose" [(!"verbose", VBool true)] = Some (VBool true)
  /\ combine c5_cli [(!"verbose", VBool true)] schema = Err AttributeError.
Proof. split; [reflexivity|split; reflexivity]. Qed.

(** Apart from that case [combine] does what C5 says for a list of
    names: it returns when every selected name is a profile of the file,
    and reports the first name that the mapping does not have. *)
Lemma combine_returns (cli cfgfile defaults : dict) (names : list str) :
  validated_file cfgfile defaults ->
  lookup !"profile" cli = Some (VList (map VStr names)) ->
  all_profiles cfgfile names ->
  exists res, combine cli cfgfile defaults = Ok res.
Proof.
  intros Hv Hp Hall. apply validated_file_wf in Hv. unfold combine.
  rewrite Hp. cbn [py_iter bind]. now apply apply_profiles_known.
Qed.

Lemma combine_no_such_profile
  (cli cfgfile defaults : dict) (known rest : list str) (n : str) :
  validated_file cfgfile defaults ->
  lookup !"profile" cli = Some (VList (map VStr (known ++ n :: rest))) ->
  all_profiles cfgfile known -> lookup n cfgfile = None ->
  combine cli cfgfile defaults
  = Err (ConfigError (VStr n) None (Some !"No such profile")).
Proof.
  intros Hv Hp Hall Hn. apply validated_file_wf in Hv. unfold combine.
  rewrite Hp. cbn [py_iter bind]. now apply apply_profiles_unknown.
Qed.

Lemma no_such_profile_message :
  ConfigError_message (VStr !"P") None (Some !"No such profile")
  = !"'P': No such profile".
Proof. reflexivity. Qed.

(* ================================================================= *)
(** ** The theorems at concrete inputs *)

Ltac chars := repeat constructor.

Lemma c1_validated : validated_file c1_cfgfile schema.
Proof. exists c1_lines, c1_cfgfile. split; reflexivity. Defined.

(** The setting of C1: the profile's true replaces the CLI's false. *)
Lemma combine_profile_against_cli_witness :
  exists res, combine c1_cli c1_cfgfile schema = Ok res
              /\ lookup !"verbose" res = Some (VBool true).
Proof.
  exact (combine_profile_against_cli c1_cli c1_cfgfile schema
           [(!"verbose", VBool true)] !"P" !"verbose"
           (VBool false) (VBool false) (VBool true)
           c1_validated eq_refl eq_refl eq_refl eq_refl eq_refl).
Defined.

Lemma combine_keys_are_schema_keys_witness :
  NoDup (keys [(!"verbose", VBool true); (!"profile", VList [VStr !"P"])])
  /\ forall k,
      In k (keys [(!"verbose", VBool true); (!"profile", VList [VStr !"P"])])
      <-> In k (keys schema).
Proof.
  exact (combine_keys_are_schema_keys c1_cli c1_cfgfile schema
           [(!"verbose", VBool true); (!"profile", VList [VStr !"P"])]
           c1_validated eq_refl).
Defined.

(** [name = a] twice is refused, one [tracker = t] is wrapped. *)
Lemma validate_scalar_list_mismatch_witness :
  validate [(!"name", VList [VStr !"a"; VStr !"b"])] c6_defaults
  = Err (ConfigError (VStr !"name") (Some (VStr !"'a', 'b'"))
           (Some !"Multiple values not allowed"))
  /\ (forall res,
        validate [(!"tracker", VStr !"t")] c6_defaults = Ok res ->
        lookup !"tracker" res = Some (VList [VStr !"t"])).
Proof.
  split.
  - exact (proj2 (proj1 (validate_scalar_list_mismatch c6_defaults [] []
                           !"name")
                    [VStr !"a"; VStr !"b"] [] eq_refl) [] eq_refl).
  - intros res.
    refine (proj2 (proj2 (validate_scalar_list_mismatch c6_defaults [] []
                            !"tracker")
                     (VStr !"t") [] eq_refl (or_intror eq_refl)) res _).
    repeat constructor. intros [].
Defined.

(** The three lines of the specification's example. *)
Lemma read_strips_one_level_of_quotes_witness :
  read_line (Top []) (!"name = " ++ dquote :: hello ++ [dquote; newline])
  = Ok (Top [(!"name", VStr hello)])
  /\ read_line (Top []) (!"name = 'hello world'" ++ [newline])
     = Ok (Top [(!"name", VStr hello)])
  /\ read_line (Top []) (!"name = " ++ dquote :: !"unterminated" ++ [newline])
     = Ok (Top [(!"name", VStr (dquote :: !"unterminated"))]).
Proof.
  split; [|split].
  - exact (proj1 (read_strips_one_level_of_quotes (Top [])
                    (!"name = " ++ dquote :: hello ++ [dquote; newline])
                    !"name" (dquote :: hello ++ [dquote]) eq_refl)
             dquote hello (or_introl eq_refl) eq_refl).
  - exact (proj1 (read_strips_one_level_of_quotes (Top [])
                    (!"name = 'hello world'" ++ [newline])
                    !"name" (squote :: hello ++ [squote]) eq_refl)
             squote hello (or_intror eq_refl) eq_refl).
  - refine (proj2 (read_strips_one_level_of_quotes (Top [])
                     (!"name = " ++ dquote :: !"unterminated" ++ [newline])
                     !"name" (dquote :: !"unterminated") eq_refl) _ _).
    + discriminate.
    + intros q [-> | ->] [H1 H2]; discriminate.
Defined.

Lemma read_empty_value_raises_IndexError_witness :
  read_line (Top []) (!"key =" ++ [newline]) = Err IndexError
  /\ read [!"# comment"; !"key =" ++ [newline]; !"other"] = Err IndexError.
Proof.
  assert (H := read_empty_value_raises_IndexError (Top []) [] !"key" !" "
                 [newline]).
  split.
  - refine (proj1 (H _ _ _ _ _ _ _)); try discriminate; chars.
  - refine (proj2 (H _ _ _ _ _ _ _) [!"# comment"] [!"other"] eq_refl);
      try discriminate; chars.
Defined.

Lemma read_second_header_rebinds_witness :
  exists d, read [!"y = 2"] = Ok d
            /\ lookup !"p"
                 [(!"a", VStr !"1"); (!"p", VDict [(!"y", VStr !"2")])]
               = Some (VDict d).
Proof.
  refine (proj2 (read_second_header_rebinds [!"a = 1"] [!"x = 1"; !"flag"]
                   [!"y = 2"] [] !"[p]" !"[p]" !"p" eq_refl eq_refl _ I _)
            _ eq_refl).
  - chars.
  - constructor.
Defined.

Lemma read_flag_then_assignment_witness :
  lookup !"flag" [(!"flag", VList [VBool true; VStr !"x"])]
  = Some (VList [VBool true; VStr !"x"])
  /\ exists d,
      lookup !"p" [(!"p", VDict [(!"flag", VList [VBool true; VStr !"x"])])]
      = Some (VDict d)
      /\ lookup !"flag" d = Some (VList [VBool true; VStr !"x"]).
Proof.
  assert (Hx : assigns !"x" !"x").
  { left. split; [|reflexivity]. intros q [-> | ->] [H1 _]; discriminate. }
  assert (H := read_flag_then_assignment !"flag" !"x" !"x" !"flag" !"flag = x"
                 [] [] [] eq_refl eq_refl Hx (Forall_nil _) (Forall_nil _)).
  cbv zeta in H. split.
  - exact (proj2 (proj1 H [] I (Forall_nil _)) _ eq_refl).
  - exact (proj2 (proj2 H [] !"[p]" !"p" [] eq_refl I (Forall_nil _)) _
             eq_refl).
Defined.

(* ================================================================= *)
(** * Further properties of the code *)

(** ** [read]: errors, skipped lines, scopes *)

Lemma read_lines_ok_no_empty (lines : list str) :
  forall st st', read_lines st lines = Ok st' -> no_empty_value lines.
Proof.
  induction lines as [|l lines IH]; intros st st'; simpl; [constructor|].
  destruct (read_line st l) as [st1|] eqn:E; simpl; [|discriminate].
  intros H. constructor; [|now apply (IH st1 st')].
  intros n Hn. rewrite read_line_classify in E. unfold scope_line in E.
  rewrite Hn in E. destruct st; discriminate.
Qed.

(** X1. [read] returns exactly for the files without an assignment of
    the empty string, and the only exception it raises is
    [IndexError]. *)
Theorem read_returns_iff (lines : list str) :
  ((exists cfg, read lines = Ok cfg) <-> no_empty_value lines)
  /\ (forall e, read lines = Err e -> e = IndexError).
Proof.
  split; [split|].
  - intros [cfg H]. unfold read, rmap in H.
    destruct (read_lines (Top []) lines) as [st|] eqn:E; [|discriminate].
    now apply (read_lines_ok_no_empty lines (Top []) st).
  - apply read_returns.
  - intros e H. now apply (read_error lines e).
Qed.

Lemma read_returns_iff_witness :
  (exists cfg, read [!"name = x"; !"[P]"; !"verbose"] = Ok cfg)
  /\ (forall e, read [!"name ="] = Err e -> e = IndexError).
Proof.
  split.
  - apply (proj1 (read_returns_iff [!"name = x"; !"[P]"; !"verbose"])).
    repeat (constructor; [intros n H; vm_compute in H; discriminate|]).
    constructor.
  - exact (proj2 (read_returns_iff [!"name ="])).
Defined.

(** X2. What [read] returns has pairwise distinct keys and at most one
    level of nesting: every value is an option value, or the mapping of a
    profile, whose keys are distinct and whose values are option
    values. *)
Theorem read_mapping_shape (lines : list str) (raw : dict) :
  read lines = Ok raw ->
  NoDup (keys raw)
  /\ forall k v, In (k, v) raw ->
       type_of v <> TDict
       \/ exists d, v = VDict d /\ NoDup (keys d)
                    /\ forall k' v', In (k', v') d -> type_of v' <> TDict.
Proof. intros H. exact (read_shape lines raw H). Qed.

Lemma read_mapping_shape_witness :
  NoDup (keys c1_cfgfile)
  /\ forall k v, In (k, v) c1_cfgfile ->
       type_of v <> TDict
       \/ exists d, v = VDict d /\ NoDup (keys d)
                    /\ forall k' v', In (k', v') d -> type_of v' <> TDict.
Proof. exact (read_mapping_shape c1_lines c1_cfgfile eq_refl). Defined.

Lemma read_line_skippable (st : rstate) (l : str) :
  skippable l -> read_line st l = Ok st.
Proof.
  unfold skippable, read_line. destruct (strip l) as [|c0 rest]; [reflexivity|].
  intros [H|H]; [discriminate|]. injection H as ->. reflexivity.
Qed.

(** X3. Blank lines and comment lines change nothing, wherever they
    are in the file. *)
Theorem read_skips_blank_and_comment (a b : list str) (l : str) :
  skippable l -> read (a ++ l :: b) = read (a ++ b).
Proof.
  intros H. unfold read. rewrite !read_lines_app.
  destruct (read_lines (Top []) a) as [st|]; [|reflexivity].
  cbn [bind read_lines]. now rewrite (read_line_skippable st l H).
Qed.

Lemma read_skips_blank_and_comment_witness :
  read ([!"a = 1"] ++ !"  # a comment" :: [!"b"]) = read ([!"a = 1"] ++ [!"b"]).
Proof.
  apply (read_skips_blank_and_comment [!"a = 1"] [!"b"] !"  # a comment").
  right. reflexivity.
Defined.

Lemma lstrip_split (s : str) :
  exists ws, spaces ws /\ s = ws ++ lstrip s
             /\ match lstrip s with
                | [] => True
                | c :: _ => isspace c = false
                end.
Proof.
  induction s as [|c s [ws [Hw [E Hh]]]]; simpl.
  - exists []. repeat split. constructor.
  - destruct (isspace c) eqn:Ec.
    + exists (c :: ws). split; [now constructor|]. split; [|exact Hh].
      simpl. now rewrite <- E.
    + exists []. split; [constructor|]. now split.
Qed.

(** What [strip] returns has no whitespace at its ends. *)
Lemma strip_is_trimmed (s : str) : trimmed (strip s).
Proof.
  unfold strip. destruct (lstrip_split s) as [ws1 [_ [_ Hu]]].
  destruct (lstrip_split (rev (lstrip s))) as [ws2 [Hw2 [E Hw]]].
  set (u := lstrip s) in *. set (w := lstrip (rev u)) in *.
  destruct w as [|x w'] eqn:Ew; [exact I|].
  assert (Eu : u = rev (x :: w') ++ rev ws2).
  { rewrite <- rev_app_distr, <- E. now rewrite rev_involutive. }
  destruct (rev (x :: w')) as [|y r] eqn:Er.
  { apply (f_equal (@List.length ascii)) in Er. rewrite length_rev in Er.
    discriminate. }
  split.
  - rewrite Eu in Hu. exact Hu.
  - rewrite <- Er. simpl rev. rewrite last_last. exact Hw.
Qed.

(** The assignment pattern needs an equals sign. *)
Lemma re_assign_needs_equals (s : str) :
  ~ In equals s -> re_match _re_assign s = None.
Proof.
  intros Hn. unfold re_match, _re_assign. cbn [rmatch]. simpl Nat.eqb.
  cbv iota. destruct s as [|c s]; [reflexivity|].
  destruct (in_class NonSpace c); [|reflexivity].
  apply star_none. intros p t pos1 E _.
  apply star_none. intros p' t' pos2 E' _.
  destruct t' as [|x t']; [reflexivity|].
  destruct (Ascii.eqb_spec x equals) as [->|]; [|reflexivity].
  exfalso. apply Hn. right. rewrite E, E'.
  apply in_or_app. right. apply in_or_app. right. now left.
Qed.

Lemma classify_without_equals (l : str) :
  ~ In equals (strip l) ->
  (exists c, In c (strip l) /\ isspace c = true) ->
  ~ (hd_error (strip l) = Some "["%char /\ last (strip l) " "%char = "]"%char) ->
  classify l = Skipped \/ classify l = Ignored.
Proof.
  intros Hn [c [Hin Hc]] Hh. pose proof (strip_is_trimmed l) as Ht.
  unfold classify. destruct (strip l) as [|c0 rest] eqn:E; [now left|].
  destruct (Ascii.eqb c0 "#"%char); [now left|].
  destruct (Ascii.eqb_spec c0 "["%char) as [E0|].
  - destruct (Ascii.eqb_spec (last (c0 :: rest) c0) "]"%char) as [E1|].
    + exfalso. apply Hh. split; [simpl; congruence|]. rewrite <- E1.
      apply last_cons_default.
    + simpl andb. cbv iota.
      destruct (in_split _ _ Hin) as [a [b Eab]].
      assert (Hb : b <> []).
      { intros ->. destruct Ht as [_ Hl]. rewrite Eab, last_last in Hl.
        congruence. }
      rewrite Eab, re_bool_inner_space by assumption.
      rewrite <- Eab, re_assign_needs_equals by assumption. now right.
  - simpl andb. cbv iota.
    destruct (in_split _ _ Hin) as [a [b Eab]].
    assert (Hb : b <> []).
    { intros ->. destruct Ht as [_ Hl]. rewrite Eab, last_last in Hl.
      congruence. }
    rewrite Eab, re_bool_inner_space by assumption.
    rewrite <- Eab, re_assign_needs_equals by assumption. now right.
Qed.

(** X4. A line of several tokens without an equals sign, which is not
    wrapped in brackets, is ignored without an error, wherever it is in
    the file. *)
Theorem read_ignores_line_without_equals (a b : list str) (l : str) :
  ~ In equals (strip l) ->
  (exists c, In c (strip l) /\ isspace c = true) ->
  ~ (hd_error (strip l) = Some "["%char /\ last (strip l) " "%char = "]"%char) ->
  read (a ++ l :: b) = read (a ++ b).
Proof.
  intros Hn Hc Hh. unfold read. rewrite !read_lines_app.
  destruct (read_lines (Top []) a) as [st|]; [|reflexivity].
  cbn [bind read_lines]. rewrite read_line_classify. unfold scope_line.
  destruct (classify_without_equals l Hn Hc Hh) as [-> | ->]; simpl;
    now rewrite with_current_current.
Qed.

Lemma read_ignores_line_without_equals_witness :
  read ([!"a = 1"] ++ !"two words" :: [!"b"]) = read ([!"a = 1"] ++ [!"b"]).
Proof.
  apply (read_ignores_line_without_equals [!"a = 1"] [!"b"] !"two words").
  - vm_compute. intuition discriminate.
  - exists " "%char. split; [|reflexivity].
    vm_compute. repeat first [left; reflexivity | right].
  - intros [H _]. discriminate.
Defined.

(** ** [read]: what a scope holds for a key *)

Lemma stored_snoc (vs : list str) (v : str) (d : dict) (key : str) :
  lookup key d = stored vs ->
  lookup key (record_value d key v) = stored (vs ++ [v]).
Proof.
  intros H. unfold record_value. rewrite H.
  destruct vs as [|a [|b r]]; simpl; rewrite lookup_set_item_eq;
    try reflexivity.
  now rewrite map_app.
Qed.

Lemma read_block_values (key : str) (blk : list str) :
  forall d0 d vs0,
    no_flag key blk -> lookup key d0 = stored vs0 ->
    read_block d0 blk = Ok d ->
    lookup key d = stored (vs0 ++ assigned_values key blk).
Proof.
  induction blk as [|l blk IH]; intros d0 d vs0 Hf H0; simpl.
  - intros [= <-]. now rewrite app_nil_r.
  - inversion Hf as [|? ? Hl Hf']; subst.
    unfold scope_line, line_value.
    destruct (classify l) as [|n|n|n value|] eqn:Ec; cbn [bind];
      try (now apply IH).
    + apply IH; trivial. rewrite lookup_set_item_neq; [assumption|].
      congruence.
    + destruct value as [|v0 value]; [discriminate|]. cbn [bind].
      destruct (str_eqb n key) eqn:En.
      * apply str_eqb_eq in En. subst n. intros H.
        replace (vs0 ++ dequote (v0 :: value) :: assigned_values key blk)
          with ((vs0 ++ [dequote (v0 :: value)]) ++ assigned_values key blk)
          by now rewrite <- app_assoc.
        refine (IH _ d _ Hf' _ H). now apply stored_snoc.
      * apply str_eqb_neq in En. apply IH; trivial.
        unfold record_value.
        destruct (lookup n d0) as [[]|]; rewrite lookup_set_item_neq;
          congruence.
Qed.

(** X5. In a file without profile headers, a key that is only ever
    assigned holds the assigned strings in the order of their lines: no
    entry when there is none, the string when there is one, the list of
    the strings when there are several. *)
Theorem read_accumulates_in_order (key : str) (blk : list str) (d : dict) :
  no_header blk -> no_flag key blk -> read blk = Ok d ->
  lookup key d = stored (assigned_values key blk).
Proof.
  intros Hh Hf. rewrite (read_block_alone blk Hh). intros H.
  exact (read_block_values key blk [] d [] Hf eq_refl H).
Qed.

Lemma read_accumulates_in_order_witness :
  lookup !"tracker"
    [(!"tracker", VList [VStr !"http://a/x"; VStr !"http://b/x"]);
     (!"name", VStr !"n")]
  = stored (assigned_values !"tracker"
              [!"tracker = http://a/x"; !"name = n"; !"tracker = http://b/x"]).
Proof.
  apply (read_accumulates_in_order !"tracker"
           [!"tracker = http://a/x"; !"name = n"; !"tracker = http://b/x"]).
  - chars.
  - repeat (constructor; [intros H; vm_compute in H; discriminate|]).
    constructor.
  - reflexivity.
Defined.

(** X6. A bare flag line overwrites what the scope held for the key:
    when it is the last line of a file without headers that names the
    key, the key holds the boolean true, whatever was assigned to it
    before. *)
Theorem read_flag_overwrites (key fl : str) (a c : list str) (d : dict) :
  classify fl = Flag key -> no_header (a ++ fl :: c) ->
  Forall (fun l => line_name l <> Some key) c ->
  read (a ++ fl :: c) = Ok d ->
  lookup key d = Some (VBool true).
Proof.
  intros Hf Hh Hc. rewrite (read_block_alone _ Hh), read_block_app.
  destruct (read_block [] a) as [d1|]; cbn [bind read_block]; [|discriminate].
  unfold scope_line at 1. rewrite Hf. cbn [bind]. intros H.
  rewrite (read_block_other key c _ _ Hc H). apply lookup_set_item_eq.
Qed.

Lemma read_flag_overwrites_witness :
  lookup !"verbose" [(!"verbose", VBool true); (!"name", VStr !"n")]
  = Some (VBool true).
Proof.
  apply (read_flag_overwrites !"verbose" !"verbose"
           [!"verbose = 1"; !"verbose = 2"] [!"name = n"]).
  - reflexivity.
  - chars.
  - repeat (constructor; [intros H; vm_compute in H; discriminate|]).
    constructor.
  - reflexivity.
Defined.

(** ** [read]: profiles and the top level *)

Lemma bound_profile_line (name : str) (st st' : rstate) (l : str) :
  bound_profile name st -> read_line st l = Ok st' -> bound_profile name st'.
Proof.
  intros Hb. destruct (is_header l) eqn:Eh.
  - apply is_header_spec in Eh. destruct Eh as [n En].
    rewrite (read_line_header st l n En). intros [= <-].
    destruct st as [|cfg frozen cur]; [contradiction|].
    destruct Hb as [a Ha]. simpl.
    destruct (list_eq_dec ascii_dec name n) as [->|Hne].
    + rewrite lookup_set_item_eq. eauto.
    + rewrite lookup_set_item_neq by assumption. eauto.
  - rewrite (read_line_scope st l Eh).
    destruct (scope_line (current st) l); simpl; [|discriminate].
    intros [= <-]. now destruct st.
Qed.

Lemma bound_profile_lines (name : str) (lines : list str) :
  forall st st', bound_profile name st -> read_lines st lines = Ok st' ->
                 bound_profile name st'.
Proof.
  induction lines as [|l lines IH]; intros st st' Hb; simpl.
  - now intros [= <-].
  - destruct (read_line st l) as [st1|] eqn:E; simpl; [|discriminate].
    apply IH. now apply (bound_profile_line name st st1 l).
Qed.

(** X7. Every profile header of the file gives its name a mapping in
    what [read] returns, also when an option of that name was set at the
    top level before. *)
Theorem read_header_names_are_profiles
  (lines : list str) (cfg : dict) (h name : str) :
  read lines = Ok cfg -> In h lines -> classify h = Header name ->
  exists d, lookup name cfg = Some (VDict d).
Proof.
  intros Hread Hin Hh. destruct (in_split _ _ Hin) as [pre [post ->]].
  unfold read, rmap in Hread. rewrite read_lines_app in Hread.
  destruct (read_lines (Top []) pre) as [st0|]; cbn [bind read_lines] in Hread;
    [|discriminate].
  rewrite (read_line_header st0 h name Hh) in Hread. cbn [bind] in Hread.
  destruct (read_lines (open_profile st0 name) post) as [st'|] eqn:E;
    cbn [bind] in Hread; [|discriminate].
  injection Hread as <-.
  assert (Hb : bound_profile name st').
  { apply (bound_profile_lines name post (open_profile st0 name)); trivial.
    destruct st0; simpl; rewrite lookup_set_item_eq; eauto. }
  destruct st' as [|cfg' frozen cur]; [contradiction|].
  destruct Hb as [a Ha]. simpl.
  rewrite (lookup_map
             (fun s => match s with
                       | SVal v => v
                       | SRef a => VDict (nth a (frozen ++ [cur]) [])
                       end)).
  rewrite Ha. simpl. eauto.
Qed.

Lemma read_header_names_are_profiles_witness :
  exists d, lookup !"P" [(!"P", VDict [])] = Some (VDict d).
Proof.
  apply (read_header_names_are_profiles [!"P = 1"; !"[P]"]
           [(!"P", VDict [])] !"[P]" !"P").
  - reflexivity.
  - right. left. reflexivity.
  - reflexivity.
Defined.

Lemma top_is_line (key : str) (x : option value) (st st' : rstate) (l : str) :
  classify l <> Header key ->
  top_is key x st -> read_line st l = Ok st' -> top_is key x st'.
Proof.
  intros Hl Hb. destruct (is_header l) eqn:Eh.
  - apply is_header_spec in Eh. destruct Eh as [n En].
    rewrite (read_line_header st l n En). intros [= <-].
    destruct st as [|cfg frozen cur]; [contradiction|]. simpl in *.
    rewrite lookup_set_item_neq; [assumption|]. congruence.
  - rewrite (read_line_scope st l Eh).
    destruct (scope_line (current st) l); simpl; [|discriminate].
    intros [= <-]. now destruct st.
Qed.

Lemma top_is_lines (key : str) (x : option value) (lines : list str) :
  forall st st', not_reopened key lines -> top_is key x st ->
                 read_lines st lines = Ok st' -> top_is key x st'.
Proof.
  induction lines as [|l lines IH]; intros st st' Hn Hb; simpl.
  - now intros [= <-].
  - inversion Hn as [|? ? Hl Hn']; subst.
    destruct (read_line st l) as [st1|] eqn:E; simpl; [|discriminate].
    apply IH; trivial. now apply (top_is_line key x st st1 l).
Qed.

(** X8. The scopes of a file are independent.  The top level holds,
    for every key that no later header takes, what the lines before the
    first header define by themselves; a profile holds what the lines of
    its last block define by themselves. *)
Theorem read_scopes_are_independent (blk post : list str) :
  no_header blk -> starts_scope post ->
  (forall cfg key,
      not_reopened key post -> read (blk ++ post) = Ok cfg ->
      exists d, read blk = Ok d /\ lookup key cfg = lookup key d)
  /\ (forall pre h name cfg,
      classify h = Header name -> not_reopened name post ->
      read (pre ++ h :: blk ++ post) = Ok cfg ->
      exists d, read blk = Ok d /\ lookup name cfg = Some (VDict d)).
Proof.
  intros Hblk Hpost. split.
  - intros cfg key Hn Hread. rewrite (read_block_alone blk Hblk).
    unfold read, rmap in Hread.
    rewrite read_lines_app, (read_lines_block _ _ Hblk) in Hread.
    unfold rmap in Hread. cbn [current with_current] in Hread.
    destruct (read_block [] blk) as [d|]; cbn [bind] in Hread; [|discriminate].
    exists d. split; [reflexivity|].
    destruct post as [|h post].
    + cbn [read_lines bind] in Hread. now injection Hread as <-.
    + simpl in Hpost. apply is_header_spec in Hpost.
      destruct Hpost as [n Hhn]. inversion Hn as [|? ? Hh Hn']; subst.
      cbn [read_lines] in Hread.
      rewrite (read_line_header _ h n Hhn) in Hread.
      cbn [bind open_profile] in Hread.
      destruct (read_lines _ post) as [st'|] eqn:E; cbn [bind] in Hread;
        [|discriminate].
      injection Hread as <-.
      assert (Hb : top_is key (lookup key d) st').
      { refine (top_is_lines key _ post _ st' Hn' _ E). simpl.
        rewrite lookup_set_item_neq by congruence.
        now rewrite (lookup_map SVal). }
      destruct st' as [|cfg' frozen cur]; [contradiction|]. simpl in *.
      rewrite (lookup_map
                 (fun s => match s with
                           | SVal v => v
                           | SRef a => VDict (nth a (frozen ++ [cur]) [])
                           end)).
      rewrite Hb. now destruct (lookup key d).
  - intros pre h name cfg Hh Hn Hread. unfold read, rmap in Hread.
    rewrite read_lines_app in Hread.
    destruct (read_lines (Top []) pre) as [st0|]; cbn [bind] in Hread;
      [|discriminate].
    destruct (read_lines st0 (h :: blk ++ post)) as [st'|] eqn:E;
      cbn [bind] in Hread; [|discriminate].
    injection Hread as <-.
    destruct (read_last_opening st0 st' h name blk post Hh Hblk Hpost Hn E)
      as [d [Hr Hl]].
    exists d. rewrite (read_block_alone blk Hblk). now split.
Qed.

Lemma read_scopes_are_independent_witness :
  exists d, read [!"a = 1"] = Ok d
            /\ lookup !"a" [(!"a", VStr !"1"); (!"p", VDict [(!"b", VStr !"2")])]
               = lookup !"a" d.
Proof.
  refine (proj1 (read_scopes_are_independent [!"a = 1"] [!"[p]"; !"b = 2"]
                   _ _) _ !"a" _ eq_refl).
  - chars.
  - reflexivity.
  - repeat (constructor; [intros H; vm_compute in H; discriminate|]).
    constructor.
Defined.

(** ** [validate]: what it keeps, what it refuses *)

Lemma set_item_fresh {V : Type} (d : list (str * V)) (k : str) (v : V) :
  ~ In k (keys d) -> set_item d k v = d ++ [(k, v)].
Proof.
  induction d as [|[k0 v0] d IH]; simpl; intros Hn; [reflexivity|].
  destruct (str_eqb k k0) eqn:E.
  - apply str_eqb_eq in E. subst k0. exfalso. apply Hn. now left.
  - rewrite IH; [reflexivity|]. intros H. apply Hn. now right.
Qed.

Section ValidateMore.
Variable entry : str -> value -> result value.

(** The loop stores the accepted entries after what it has, in their
    order, when the keys are distinct. *)
Lemma validate_items_result (items : list (str * value)) :
  forall res out,
    NoDup (keys (res ++ items)) ->
    validate_items entry items res = Ok out ->
    exists items',
      out = res ++ items'
      /\ Forall2 (fun kx ky => fst ky = fst kx
                               /\ entry (fst kx) (snd kx) = Ok (snd ky))
           items items'.
Proof.
  induction items as [|[k x] items IH]; intros res out Hn; simpl.
  - intros [= <-]. exists []. split; [now rewrite app_nil_r|constructor].
  - destruct (entry k x) as [y|] eqn:E; simpl; [|discriminate].
    intros H.
    assert (Hk : ~ In k (keys res)).
    { destruct (NoDup_keys_split res items k x Hn) as [H1 _]. exact H1. }
    rewrite (set_item_fresh res k y Hk) in H.
    destruct (IH (res ++ [(k, y)]) out) as [items' [-> HF]]; trivial.
    + unfold keys in *. rewrite <- app_assoc. simpl.
      rewrite !map_app in *. exact Hn.
    + exists ((k, y) :: items'). split; [now rewrite <- app_assoc|].
      constructor; [now split|exact HF].
Qed.

(** A mapping of distinct keys whose entries the body returns unchanged
    is returned unchanged. *)
Lemma validate_items_fixed (items : list (str * value)) :
  forall res,
    NoDup (keys (res ++ items)) ->
    (forall k y, In (k, y) items -> entry k y = Ok y) ->
    validate_items entry items res = Ok (res ++ items).
Proof.
  induction items as [|[k y] items IH]; intros res Hn Hf; simpl.
  - now rewrite app_nil_r.
  - rewrite (Hf k y (or_introl eq_refl)). cbn [bind].
    assert (Hk : ~ In k (keys res)).
    { destruct (NoDup_keys_split res items k y Hn) as [H1 _]. exact H1. }
    rewrite (set_item_fresh res k y Hk), IH.
    + now rewrite <- app_assoc.
    + unfold keys in *. rewrite <- app_assoc. exact Hn.
    + intros k' y' Hin. apply Hf. now right.
Qed.
End ValidateMore.

(** X9. [validate] keeps the keys of a mapping in their order, returns
    an option of the type of its default unchanged, wraps an option of
    another type in a one-element list when the default is a list, and
    returns a profile validated. *)
Theorem validate_keeps_keys_and_values (raw defaults res : dict) :
  NoDup (keys raw) -> validate raw defaults = Ok res ->
  keys res = keys raw
  /\ (forall k v, In (k, v) raw -> type_of v <> TDict ->
        exists d, lookup k defaults = Some d
          /\ ((type_of v = type_of d /\ lookup k res = Some v)
              \/ (type_of d = TList /\ type_of v <> TList
                  /\ lookup k res = Some (VList [v]))))
  /\ (forall k p, In (k, VDict p) raw ->
        exists p', validate p defaults = Ok p'
                   /\ lookup k res = Some (VDict p')).
Proof.
  intros Hn Hv.
  destruct (validate_items_result (validate_entry defaults) raw [] res Hn Hv)
    as [items' [-> HF]]. simpl app.
  assert (Hk : keys items' = keys raw).
  { clear Hn Hv. induction HF as [|[k x] [k' y] raw items' [E _] _ IH];
      [reflexivity|]. simpl in *. now rewrite E, IH. }
  assert (Hl : forall k x, In (k, x) raw ->
                 exists y, validate_entry defaults k x = Ok y
                           /\ lookup k items' = Some y).
  { intros k x Hin. assert (Hn' : NoDup (keys items')) by now rewrite Hk.
    clear Hv Hk Hn. induction HF as [|[k0 x0] [k1 y1] raw items' [E He] _ IH];
      [contradiction|]. simpl in E, He. subst k1.
    destruct Hin as [Hin|Hin].
    - injection Hin as -> ->. exists y1. split; [exact He|].
      simpl. now rewrite str_eqb_refl.
    - inversion Hn' as [|? ? Hnk Hn'']; subst.
      destruct (IH Hin Hn'') as [y [Hy Hly]]. exists y. split; [exact Hy|].
      simpl. destruct (str_eqb k k0) eqn:Ek; [|exact Hly].
      apply str_eqb_eq in Ek. subst k0. exfalso. apply Hnk.
      apply lookup_In in Hly. now apply (in_map fst) in Hly. }
  split; [exact Hk|split].
  - intros k v Hin Ht. destruct (Hl k v Hin) as [y [Hy Hly]].
    rewrite validate_entry_option in Hy by assumption.
    unfold validate_option in Hy.
    destruct (lookup k defaults) as [d|]; [|discriminate].
    exists d. split; [reflexivity|].
    destruct v, d; simpl in Hy; try discriminate; try (now elim Ht);
      injection Hy as <-;
      try (left; split; [reflexivity|exact Hly]);
      right; (split; [reflexivity|split; [discriminate|exact Hly]]).
  - intros k p Hin. destruct (Hl k (VDict p) Hin) as [y [Hy Hly]].
    simpl in Hy. unfold rmap in Hy. fold (validate p defaults) in Hy.
    destruct (validate p defaults) as [p'|]; [|discriminate].
    injection Hy as <-. now exists p'.
Qed.

Lemma validate_keeps_keys_and_values_witness :
  keys [(!"tracker", VList [VStr !"t"]); (!"name", VStr !"n")]
  = keys [(!"tracker", VStr !"t"); (!"name", VStr !"n")].
Proof.
  refine (proj1 (validate_keeps_keys_and_values
                   [(!"tracker", VStr !"t"); (!"name", VStr !"n")]
                   c6_defaults
                   [(!"tracker", VList [VStr !"t"]); (!"name", VStr !"n")]
                   _ eq_refl)).
  simpl. repeat constructor; simpl; intuition discriminate.
Defined.

(** Induction on values through their lists and mappings. *)
Lemma value_nested_ind (P : value -> Prop) :
  (forall b, P (VBool b)) -> (forall s, P (VStr s)) ->
  (forall l, Forall P l -> P (VList l)) ->
  (forall d, Forall (fun kv => P (snd kv)) d -> P (VDict d)) ->
  forall v, P v.
Proof.
  intros Hb Hs Hl Hd.
  fix IH 1. intros [b|s|l|d].
  - apply Hb.
  - apply Hs.
  - apply Hl. induction l as [|x l IHl]; constructor; [apply IH|exact IHl].
  - apply Hd. induction d as [|[k x] d IHd]; constructor;
      [apply IH|exact IHd].
Qed.

Lemma validate_items_idempotent (defaults d out : dict) :
  Forall (fun kv => forall name y,
            validate_entry defaults name (snd kv) = Ok y ->
            validate_entry defaults name y = Ok y) d ->
  validate_items (validate_entry defaults) d [] = Ok out ->
  validate_items (validate_entry defaults) out [] = Ok out.
Proof.
  intros HQ Hv.
  apply (validate_items_fixed (validate_entry defaults) out []).
  - apply (validate_items_NoDup (validate_entry defaults) d [] out);
      [constructor|exact Hv].
  - apply (validate_items_invariant (validate_entry defaults)
             (fun k y => validate_entry defaults k y = Ok y) d [] out);
      [|intros ? ? []|exact Hv].
    intros k x y Hin. rewrite Forall_forall in HQ. apply (HQ (k, x) Hin).
Qed.

Lemma validate_entry_idempotent (defaults : dict) (v : value) :
  forall name y, validate_entry defaults name v = Ok y ->
                 validate_entry defaults name y = Ok y.
Proof.
  induction v as [b|s|l _|d IH] using value_nested_ind; intros name y.
  1-3: simpl; unfold validate_option;
    destruct (lookup name defaults) as [[]|] eqn:E; simpl;
    try discriminate; intros [= <-]; simpl; unfold validate_option;
    now rewrite E.
  simpl. unfold rmap.
  destruct (validate_items (validate_entry defaults) d []) as [out|] eqn:Ev;
    simpl; [|discriminate].
  intros [= <-]. simpl. now rewrite (validate_items_idempotent defaults d out).
Qed.

(** X10. [validate] is idempotent: what it returns it accepts, and
    returns unchanged. *)
Theorem validate_idempotent (raw defaults res : dict) :
  validate raw defaults = Ok res -> validate res defaults = Ok res.
Proof.
  apply validate_items_idempotent. apply Forall_forall.
  intros [k x] _. apply validate_entry_idempotent.
Qed.

Lemma validate_idempotent_witness :
  validate [(!"tracker", VList [VStr !"t"])] c6_defaults
  = Ok [(!"tracker", VList [VStr !"t"])].
Proof.
  exact (validate_idempotent [(!"tracker", VStr !"t")] c6_defaults
           [(!"tracker", VList [VStr !"t"])] eq_refl).
Defined.

Lemma validate_first_error
  (defaults pre post r : dict) (name : str) (v : value) (e : exn) :
  validate pre defaults = Ok r -> validate_entry defaults name v = Err e ->
  validate (pre ++ (name, v) :: post) defaults = Err e.
Proof.
  intros Hr He. unfold validate in *. rewrite validate_items_app, Hr.
  cbn [bind validate_items]. now rewrite He.
Qed.

(** X11. An option that is not in the schema makes [validate] raise
    [ConfigError(name)] when the entries before it are accepted: at the
    top level, and inside a profile, whether or not any profile is ever
    selected. *)
Theorem validate_unknown_option
  (defaults : dict) (name : str) (v : value) :
  lookup name defaults = None -> type_of v <> TDict ->
  (forall pre post r,
      validate pre defaults = Ok r ->
      validate (pre ++ (name, v) :: post) defaults
      = Err (ConfigError (VStr name) None None))
  /\ (forall pre post r P ppre ppost r',
      validate pre defaults = Ok r -> validate ppre defaults = Ok r' ->
      validate (pre ++ (P, VDict (ppre ++ (name, v) :: ppost)) :: post)
        defaults
      = Err (ConfigError (VStr name) None None)).
Proof.
  intros Hd Ht.
  assert (He : validate_entry defaults name v
               = Err (ConfigError (VStr name) None None)).
  { rewrite validate_entry_option by assumption. unfold validate_option.
    now rewrite Hd. }
  split.
  - intros pre post r Hr. now apply (validate_first_error defaults pre post r).
  - intros pre post r P ppre ppost r' Hr Hr'.
    apply (validate_first_error defaults pre post r); trivial.
    simpl. fold (validate (ppre ++ (name, v) :: ppost) defaults).
    now rewrite (validate_first_error defaults ppre ppost r' name v _ Hr' He).
Qed.

Lemma validate_unknown_option_witness :
  validate ([(!"name", VStr !"n")]
            ++ (!"P", VDict ([] ++ (!"colour", VStr !"red") :: [])) :: [])
    c6_defaults
  = Err (ConfigError (VStr !"colour") None None).
Proof.
  refine (proj2 (validate_unknown_option c6_defaults !"colour" (VStr !"red")
                   eq_refl _)
            [(!"name", VStr !"n")] [] [(!"name", VStr !"n")] !"P" [] [] []
            eq_refl eq_refl).
  discriminate.
Defined.

(** X12. What a value of the wrong type reports, when the entries
    before it are accepted.  A flag that is assigned one string reports
    "Assignment to option"; a flag that is assigned several times reports
    "Multiple values not allowed", as a string option does; a string
    option that is given as a bare flag reports the value [True] without
    a reason of its own. *)
Theorem validate_type_mismatch
  (defaults pre post r : dict) (name : str) :
  validate pre defaults = Ok r ->
  (forall b s,
      lookup name defaults = Some (VBool b) ->
      validate (pre ++ (name, VStr s) :: post) defaults
      = Err (ConfigError (VStr name) (Some (VStr s))
               (Some !"Assignment to option")))
  /\ (forall b items,
      lookup name defaults = Some (VBool b) ->
      validate (pre ++ (name, VList items) :: post) defaults
      = Err (ConfigError (VStr name)
               (Some (VStr (join !", " (map repr items))))
               (Some !"Multiple values not allowed")))
  /\ (forall s b,
      lookup name defaults = Some (VStr s) ->
      validate (pre ++ (name, VBool b) :: post) defaults
      = Err (ConfigError (VStr name) (Some (VBool b)) None)).
Proof.
  intros Hr. repeat split; intros;
    apply (validate_first_error defaults pre post r); trivial;
    simpl; unfold validate_option; now rewrite H.
Qed.

Lemma validate_type_mismatch_witness :
  validate ([] ++ (!"verbose", VStr !"1") :: []) schema
  = Err (ConfigError (VStr !"verbose") (Some (VStr !"1"))
           (Some !"Assignment to option")).
Proof.
  exact (proj1 (validate_type_mismatch schema [] [] [] !"verbose" eq_refl)
           false !"1" eq_refl).
Defined.

(** ** [combine]: precedence of the sources *)

Lemma combine_base_keys_eq (cli cfgfile defaults : dict) (names : list str) :
  forall res,
    (forall n, In n names -> In n (keys defaults)) ->
    NoDup (keys res ++ names) ->
    keys (combine_base cli cfgfile defaults names res) = keys res ++ names.
Proof.
  induction names as [|n names IH]; intros res Hd Hn; simpl.
  - now rewrite app_nil_r.
  - fold (base_value cli cfgfile defaults n).
    assert (Hv : exists v, base_value cli cfgfile defaults n = Some v).
    { destruct (proj1 (lookup_keys defaults n) (Hd n (or_introl eq_refl)))
        as [d Hdn].
      unfold base_value. destruct (lookup n cli); [eauto|].
      destruct (lookup n cfgfile); eauto. }
    destruct Hv as [v ->].
    assert (Hk : ~ In n (keys res)).
    { apply NoDup_remove_2 in Hn. intros H. apply Hn. apply in_or_app.
      now left. }
    rewrite (set_item_fresh res n v Hk), IH.
    + unfold keys. rewrite map_app, <- app_assoc. reflexivity.
    + intros m Hm. apply Hd. now right.
    + unfold keys in *. rewrite map_app, <- app_assoc. exact Hn.
Qed.

(** X13. When no profile is selected [combine] returns, with the keys
    of the schema in their order, and every schema key has the CLI value
    if the CLI has one, else the value of the file's top level if it has
    one, else the default. *)
Theorem combine_without_profiles (cli cfgfile defaults : dict) :
  lookup !"profile" cli = None \/ lookup !"profile" cli = Some (VList []) ->
  exists res,
    combine cli cfgfile defaults = Ok res
    /\ (NoDup (keys defaults) -> keys res = keys defaults)
    /\ forall k d, lookup k defaults = Some d ->
         lookup k res
         = Some (match lookup k cli with
                 | Some c => c
                 | None =>
                     match lookup k cfgfile with
                     | Some f => f
                     | None => d
                     end
                 end).
Proof.
  intros Hp. unfold combine.
  exists (combine_base cli cfgfile defaults (keys defaults) []).
  split; [destruct Hp as [-> | ->]; reflexivity|]. split.
  - intros Hn. now apply (combine_base_keys_eq cli cfgfile defaults _ []).
  - intros k d Hd. apply combine_base_lookup.
    + apply lookup_keys. eauto.
    + unfold base_value. rewrite Hd.
      destruct (lookup k cli); [reflexivity|]. now destruct (lookup k cfgfile).
Qed.

Lemma combine_without_profiles_witness :
  exists res,
    combine [(!"verbose", VBool true)] [(!"profile", VList [VStr !"P"])] schema
    = Ok res
    /\ (NoDup (keys schema) -> keys res = keys schema)
    /\ forall k d, lookup k schema = Some d ->
         lookup k res
         = Some (match lookup k [(!"verbose", VBool true)] with
                 | Some c => c
                 | None =>
                     match lookup k [(!"profile", VList [VStr !"P"])] with
                     | Some f => f
                     | None => d
                     end
                 end).
Proof.
  apply (combine_without_profiles [(!"verbose", VBool true)]
           [(!"profile", VList [VStr !"P"])] schema).
  left. reflexivity.
Defined.

Lemma apply_profile_sets (cli defaults prof res r : dict) (key : str) :
  NoDup (keys prof) -> lookup key cli = None ->
  apply_profile cli defaults prof res = Ok r ->
  lookup key r = match lookup key prof with
                 | Some v => Some v
                 | None => lookup key res
                 end.
Proof.
  intros Hn Hc Hr. destruct (lookup key prof) as [v|] eqn:Ep.
  - apply lookup_In in Ep. destruct (in_split _ _ Ep) as [p1 [p2 E]].
    rewrite E in Hn, Hr. destruct (NoDup_keys_split p1 p2 key v Hn) as [H1 H2].
    rewrite apply_profile_app in Hr.
    destruct (apply_profile cli defaults p1 res) as [ra|]; cbn [bind] in Hr;
      [|discriminate].
    cbn [apply_profile] in Hr. rewrite Hc in Hr.
    rewrite (apply_profile_lookup_other cli defaults key p2 _ r H2 Hr).
    apply lookup_set_item_eq.
  - apply lookup_None in Ep.
    now apply (apply_profile_lookup_other cli defaults key prof).
Qed.

Lemma apply_profiles_value
  (cli cfgfile defaults : dict) (key : str) (names : list str) :
  well_validated defaults cfgfile -> lookup key cli = None ->
  all_profiles cfgfile names ->
  forall res res',
    apply_profiles cli cfgfile defaults (map VStr names) res = Ok res' ->
    lookup key res' = profiles_value cfgfile key names (lookup key res).
Proof.
  intros Hwf Hc. induction 1 as [|n names [prof Hn] _ IH]; intros res res';
    simpl.
  - now intros [= <-].
  - rewrite Hn. cbn [bind].
    destruct (apply_profile cli defaults prof res) as [r1|] eqn:E1;
      cbn [bind]; [|discriminate].
    intros H. rewrite (IH r1 res' H). f_equal.
    apply (apply_profile_sets cli defaults prof res r1 key); trivial.
    now destruct (validated_profile cfgfile defaults Hwf n prof Hn).
Qed.

(** X14. For a key that the CLI does not have, the selected profiles
    win over the file's top level and the default, and among the
    selected profiles the last one that sets the key wins. *)
Theorem combine_last_profile_wins
  (cli cfgfile defaults : dict) (names : list str) (key : str) (d : value) :
  validated_file cfgfile defaults ->
  lookup !"profile" cli = Some (VList (map VStr names)) ->
  all_profiles cfgfile names ->
  lookup key cli = None -> lookup key defaults = Some d ->
  exists res,
    combine cli cfgfile defaults = Ok res
    /\ lookup key res
       = profiles_value cfgfile key names
           (Some (match lookup key cfgfile with
                  | Some f => f
                  | None => d
                  end)).
Proof.
  intros Hv Hp Hall Hc Hd.
  destruct (combine_returns cli cfgfile defaults names Hv Hp Hall) as [res Hr].
  exists res. split; [exact Hr|]. apply validated_file_wf in Hv.
  unfold combine in Hr. rewrite Hp in Hr. cbn [py_iter bind] in Hr.
  rewrite (apply_profiles_value cli cfgfile defaults key names Hv Hc Hall
             _ res Hr).
  f_equal. apply combine_base_lookup.
  - apply lookup_keys. eauto.
  - unfold base_value. rewrite Hc, Hd. now destruct (lookup key cfgfile).
Qed.

Lemma combine_last_profile_wins_witness :
  exists res,
    combine cli_select_P c1_cfgfile schema = Ok res
    /\ lookup !"verbose" res = Some (VBool true).
Proof.
  refine (combine_last_profile_wins cli_select_P c1_cfgfile schema [!"P"]
            !"verbose" (VBool false) c1_validated eq_refl _ eq_refl eq_refl).
  constructor; [|constructor]. eexists. reflexivity.
Defined.

(** X15. With a list of profile names on the CLI, [combine] returns
    when every name is a profile of the validated file mapping, and
    raises [ConfigError(name, msg='No such profile')] for the first name
    that the mapping does not have when the names before it are
    profiles. *)
Theorem combine_selected_profiles
  (cli cfgfile defaults : dict) (names : list str) :
  validated_file cfgfile defaults ->
  lookup !"profile" cli = Some (VList (map VStr names)) ->
  (all_profiles cfgfile names -> exists res, combine cli cfgfile defaults = Ok res)
  /\ (forall known n rest,
        names = known ++ n :: rest -> all_profiles cfgfile known ->
        lookup n cfgfile = None ->
        combine cli cfgfile defaults
        = Err (ConfigError (VStr n) None (Some !"No such profile"))).
Proof.
  intros Hv Hp. split.
  - now apply combine_returns.
  - intros known n rest -> Hall Hn.
    now apply (combine_no_such_profile cli cfgfile defaults known rest n).
Qed.

Lemma combine_selected_profiles_witness :
  combine [(!"profile", VList [VStr !"P"; VStr !"Q"])] c1_cfgfile schema
  = Err (ConfigError (VStr !"Q") None (Some !"No such profile")).
Proof.
  refine (proj2 (combine_selected_profiles
                   [(!"profile", VList [VStr !"P"; VStr !"Q"])]
                   c1_cfgfile schema [!"P"; !"Q"] c1_validated eq_refl)
            [!"P"] !"Q" [] eq_refl _ eq_refl).
  constructor; [|constructor]. eexists. reflexivity.
Defined.

(** X16. When the CLI values have the types of the schema defaults
    and no schema key that the CLI leaves out is the name of a profile,
    every value [combine] returns has the type of its default. *)
Theorem combine_keeps_types (cli cfgfile defaults res : dict) :
  validated_file cfgfile defaults ->
  cli_typed cli defaults -> no_shadowing cli cfgfile defaults ->
  combine cli cfgfile defaults = Ok res ->
  forall k d, lookup k defaults = Some d ->
              exists v, lookup k res = Some v /\ type_of v = type_of d.
Proof. intros Hv Hc Hs Hr. exact (combine_types _ _ _ _ Hv Hc Hs Hr). Qed.

Lemma combine_keeps_types_witness :
  typed [(!"verbose", VBool true); (!"profile", VList [VStr !"P"])] schema.
Proof.
  refine (combine_keeps_types c1_cli c1_cfgfile schema
            [(!"verbose", VBool true); (!"profile", VList [VStr !"P"])]
            c1_validated _ _ eq_refl).
  - intros k c d. unfold c1_cli, schema. simpl.
    repeat match goal with
           | |- context [str_eqb k ?s] => destruct (str_eqb k s)
           end;
      intros Hc Hd; try discriminate;
      injection Hc as <-; injection Hd as <-; reflexivity.
  - intros k prof [<- | [<- | []]]; discriminate.
Defined.

Lemma apply_profile_cli
  (cli defaults prof res r : dict) (key : str) (c d : value) :
  NoDup (keys prof) -> lookup key cli = Some c -> lookup key defaults = Some d ->
  apply_profile cli defaults prof res = Ok r ->
  lookup key r = if py_eq c d
                 then match lookup key prof with
                      | Some v => Some v
                      | None => lookup key res
                      end
                 else lookup key res.
Proof.
  intros Hn Hc Hd Hr. destruct (lookup key prof) as [v|] eqn:Ep.
  - apply lookup_In in Ep. destruct (in_split _ _ Ep) as [p1 [p2 E]].
    rewrite E in Hn, Hr. destruct (NoDup_keys_split p1 p2 key v Hn) as [H1 H2].
    rewrite apply_profile_app in Hr.
    destruct (apply_profile cli defaults p1 res) as [ra|] eqn:Ea;
      cbn [bind] in Hr; [|discriminate].
    cbn [apply_profile] in Hr. rewrite Hc, Hd in Hr.
    destruct (py_eq c d); cbn [negb] in Hr; cbv iota in Hr.
    + rewrite (apply_profile_lookup_other cli defaults key p2 _ r H2 Hr).
      apply lookup_set_item_eq.
    + rewrite (apply_profile_lookup_other cli defaults key p2 _ r H2 Hr).
      apply (apply_profile_lookup_other cli defaults key p1 res ra H1 Ea).
  - apply lookup_None in Ep.
    rewrite (apply_profile_lookup_other cli defaults key prof res r Ep Hr).
    now destruct (py_eq c d).
Qed.

Lemma apply_profiles_cli
  (cli cfgfile defaults : dict) (key : str) (c d : value) (names : list str) :
  well_validated defaults cfgfile ->
  lookup key cli = Some c -> lookup key defaults = Some d ->
  all_profiles cfgfile names ->
  forall res res',
    apply_profiles cli cfgfile defaults (map VStr names) res = Ok res' ->
    lookup key res' = if py_eq c d
                      then profiles_value cfgfile key names (lookup key res)
                      else lookup key res.
Proof.
  intros Hwf Hc Hd. induction 1 as [|n names [prof Hn] _ IH]; intros res res';
    simpl.
  - intros [= <-]. now destruct (py_eq c d).
  - rewrite Hn. cbn [bind].
    destruct (apply_profile cli defaults prof res) as [r1|] eqn:E1;
      cbn [bind]; [|discriminate].
    intros H. rewrite (IH r1 res' H).
    assert (Hp : NoDup (keys prof))
      by now destruct (validated_profile cfgfile defaults Hwf n prof Hn).
    rewrite (apply_profile_cli cli defaults prof res r1 key c d Hp Hc Hd E1).
    now destruct (py_eq c d).
Qed.

(** X17. For a key that the CLI has, any number of selected profiles
    leaves the CLI value in place when it differs from the schema
    default; a CLI value that equals the default is replaced by the value
    of the last selected profile that sets the key. *)
Theorem combine_cli_value_against_profiles
  (cli cfgfile defaults : dict) (names : list str) (key : str) (c d : value) :
  validated_file cfgfile defaults ->
  lookup !"profile" cli = Some (VList (map VStr names)) ->
  all_profiles cfgfile names ->
  lookup key cli = Some c -> lookup key defaults = Some d ->
  exists res,
    combine cli cfgfile defaults = Ok res
    /\ lookup key res
       = if py_eq c d then profiles_value cfgfile key names (Some c)
         else Some c.
Proof.
  intros Hv Hp Hall Hc Hd.
  destruct (combine_returns cli cfgfile defaults names Hv Hp Hall) as [res Hr].
  exists res. split; [exact Hr|]. apply validated_file_wf in Hv.
  unfold combine in Hr. rewrite Hp in Hr. cbn [py_iter bind] in Hr.
  rewrite (apply_profiles_cli cli cfgfile defaults key c d names Hv Hc Hd Hall
             _ res Hr).
  assert (Hb : lookup key (combine_base cli cfgfile defaults (keys defaults) [])
               = Some c).
  { apply combine_base_lookup.
    - apply lookup_keys. eauto.
    - unfold base_value. now rewrite Hc. }
  now rewrite Hb.
Qed.

Lemma combine_cli_value_against_profiles_witness :
  exists res,
    combine cli_verbose_PQ cfgfile_PQ schema = Ok res
    /\ lookup !"profile" res = Some (VList [VStr !"P"; VStr !"Q"]).
Proof.
  refine (combine_cli_value_against_profiles cli_verbose_PQ cfgfile_PQ schema
            [!"P"; !"Q"] !"profile" (VList [VStr !"P"; VStr !"Q"]) (VList [])
            _ eq_refl _ eq_refl eq_refl).
  - exists [!"[P]"; !"profile = Q"; !"[Q]"; !"profile = P"].
    eexists. split; reflexivity.
  - repeat (constructor; [eexists; reflexivity|]). constructor.
Defined.

(* ================================================================= *)
(** ** The formatters *)

Lemma tier_lines_prefix (w i : nat) (trackers : list (list str)) :
  Forall2 (fun line url => exists prefix, line = prefix ++ url)
    (tier_lines w i trackers) (List.concat trackers).
Proof.
  revert i. induction trackers as [|tier rest IH]; intros i; simpl.
  - constructor.
  - apply Forall2_app; [|apply IH].
    destruct tier as [|t0 more]; [constructor|].
    constructor.
    + exists (!"Tier " ++ str_of_nat i ++ !": "). now app_norm.
    + induction more as [|t more IHm]; simpl; constructor; trivial.
      exists (repeat " "%char w ++ !" "). now app_norm.
Qed.

Lemma single_tiers (trackers : list (list str)) :
  forallb (fun tier => List.length tier <=? 1) trackers = true ->
  flat_map (fun tier => match tier with [] => [] | t0 :: _ => [t0] end)
    trackers = List.concat trackers.
Proof.
  induction trackers as [|tier rest IH]; simpl; [reflexivity|].
  intros H. apply andb_true_iff in H. destruct H as [Ht Hr].
  rewrite (IH Hr). destruct tier as [|t0 [|t1 more]]; simpl in *;
    trivial; discriminate.
Qed.

(** X18. When no tier has more than one tracker, the human-readable
    list of trackers is the machine-readable one: the URLs, without a
    tier label. *)
Theorem trackers_one_per_tier (trackers : list (list str)) :
  Forall (fun tier => List.length tier <= 1) trackers ->
  human_trackers trackers = machine_trackers trackers.
Proof.
  intros H. unfold human_trackers, machine_trackers.
  assert (Hb : forallb (fun tier => List.length tier <=? 1) trackers = true).
  { apply forallb_forall. intros tier Hin. apply Nat.leb_le.
    revert tier Hin. now apply Forall_forall. }
  rewrite Hb. now apply single_tiers.
Qed.

Lemma trackers_one_per_tier_witness :
  human_trackers [[!"http://a/announce"]; []; [!"http://b/announce"]]
  = machine_trackers [[!"http://a/announce"]; []; [!"http://b/announce"]].
Proof.
  apply (trackers_one_per_tier
           [[!"http://a/announce"]; []; [!"http://b/announce"]]).
  repeat constructor.
Defined.

(** X19. The human-readable list of trackers has one line for each URL
    of the machine-readable list, in the same order, and each line ends
    with its URL: no tracker is left out, whatever the tiers are. *)
Theorem human_trackers_lines (trackers : list (list str)) :
  Forall2 (fun line url => exists prefix, line = prefix ++ url)
    (human_trackers trackers) (machine_trackers trackers).
Proof.
  unfold human_trackers, machine_trackers.
  destruct (forallb _ trackers) eqn:E.
  - rewrite (single_tiers trackers E).
    induction (List.concat trackers); constructor; trivial. now exists [].
  - apply tier_lines_prefix.
Qed.

Lemma str_of_nat_digit (n : nat) : n < 10 -> List.length (str_of_nat n) = 1.
Proof.
  intros H. do 10 (destruct n as [|n]; [reflexivity|]). lia.
Qed.

Lemma tier_lines_column (i : nat) (trackers : list (list str)) :
  i + List.length trackers <= 10 ->
  at_column 8 (tier_lines 7 i trackers) (List.concat trackers).
Proof.
  revert i. induction trackers as [|tier rest IH]; intros i Hi; simpl in *.
  - constructor.
  - apply Forall2_app; [|apply IH; lia].
    destruct tier as [|t0 more]; [constructor|].
    constructor.
    + exists (!"Tier " ++ str_of_nat i ++ !": "). split; [now app_norm|].
      rewrite !length_app, str_of_nat_digit by lia. reflexivity.
    + induction more as [|t more IHm]; simpl; constructor; trivial.
      exists (repeat " "%char 7 ++ !" "). split; [now app_norm|reflexivity].
Qed.

(** X20. With fewer than ten tiers, one of which has several trackers,
    all URLs of the human-readable list start in the same column: the
    ninth, after a label [Tier i: ] or as many spaces. *)
Theorem human_trackers_aligned (trackers : list (list str)) :
  Exists (fun tier => 1 < List.length tier) trackers ->
  List.length trackers < 10 ->
  at_column 8 (human_trackers trackers) (machine_trackers trackers).
Proof.
  intros Hex Hlen. unfold human_trackers, machine_trackers.
  assert (Hb : forallb (fun tier => List.length tier <=? 1) trackers = false).
  { apply Bool.not_true_is_false. intros Ht.
    apply Exists_exists in Hex. destruct Hex as [tier [Hin Hl]].
    pose proof (proj1 (forallb_forall _ _) Ht tier Hin) as Hle.
    apply Nat.leb_le in Hle. lia. }
  rewrite Hb.
  rewrite (str_of_nat_digit (List.length trackers) Hlen).
  apply (tier_lines_column 1). lia.
Qed.

Lemma human_trackers_aligned_witness :
  at_column 8
    (human_trackers [[!"http://a/x"; !"http://b/x"]; [!"http://c/x"]])
    (machine_trackers [[!"http://a/x"; !"http://b/x"]; [!"http://c/x"]]).
Proof.
  apply (human_trackers_aligned
           [[!"http://a/x"; !"http://b/x"]; [!"http://c/x"]]).
  - apply Exists_cons_hd. simpl. lia.
  - simpl. lia.
Defined.




Lemma split_on_piece (c : ascii) (p s : str) :
  ~ In c p -> split_on c (p ++ c :: s) = p :: split_on c s.
Proof.
  induction p as [|x p IH]; simpl; intros H.
  - now rewrite Ascii.eqb_refl.
  - destruct (Ascii.eqb x c) eqn:E.
    + apply Ascii.eqb_eq in E. tauto.
    + rewrite IH by tauto. reflexivity.
Qed.

Lemma split_on_last (c : ascii) (p : str) :
  ~ In c p -> split_on c p = [p].
Proof.
  induction p as [|x p IH]; simpl; intros H; [reflexivity|].
  destruct (Ascii.eqb x c) eqn:E.
  - apply Ascii.eqb_eq in E. tauto.
  - rewrite IH by tauto. reflexivity.
Qed.

Lemma split_on_join (c : ascii) (fields : list str) :
  fields <> [] -> Forall (fun f => ~ In c f) fields ->
  split_on c (join [c] fields) = fields.
Proof.
  induction fields as [|f fields IH]; [congruence|].
  intros _ Hall. inversion Hall as [|? ? Hf Hrest]; subst.
  destruct fields as [|g fields].
  - simpl. now apply split_on_last.
  - change (join [c] (f :: g :: fields))
      with (f ++ c :: join [c] (g :: fields)).
    rewrite split_on_piece by assumption.
    rewrite IH; [reflexivity|discriminate|assumption].
Qed.

Lemma In_join (c : ascii) (sep : str) (parts : list str) :
  In c (join sep parts) ->
  In c sep \/ exists p, In p parts /\ In c p.
Proof.
  induction parts as [|p parts IH]; [intros []|].
  destruct parts as [|p' parts].
  - simpl. intros H. right. exists p. auto.
  - change (join sep (p :: p' :: parts))
      with (p ++ sep ++ join sep (p' :: parts)).
    intros H. apply in_app_or in H. destruct H as [H|H].
    + right. exists p. split; [now left|exact H].
    + apply in_app_or in H. destruct H as [H|H]; [now left|].
      destruct (IH H) as [Hs|[x [Hx Hc]]]; [now left|].
      right. exists x. split; [now right|exact Hc].
Qed.

(** X22. What [info] of the machine formatter prints for a sequence
    that is not empty can be read back when neither the key nor an item
    has a tab or a newline in it, which [info] does not check: it is
    then one line, with no newline before the one that ends it, and the
    line splits at the tabs into the key and the items. *)
Theorem machine_info_round_trip (key : str) (items : list atom) :
  Forall (fun s => ~ In tab s /\ ~ In newline s)
    (key :: map atom_text items) ->
  items <> [] ->
  exists line,
    machine_info key (Many items) = line ++ [newline]
    /\ ~ In newline line
    /\ split_on tab line = key :: map atom_text items.
Proof.
  intros Hall Hne. inversion Hall as [|? ? [Hkt Hkn] Hitems]; subst.
  exists (key ++ tab :: join [tab] (map atom_text items)).
  split; [|split].
  - unfold machine_info. now app_norm.
  - intros H. apply in_app_or in H. destruct H as [H|[H|H]].
    + now apply Hkn.
    + discriminate H.
    + apply In_join in H. destruct H as [[H|[]]|[p [Hp Hc]]].
      * discriminate H.
      * pose proof (proj1 (Forall_forall _ _) Hitems p Hp) as [_ Hpn].
        now apply Hpn.
  - rewrite split_on_piece by assumption. f_equal.
    apply split_on_join.
    + destruct items; [congruence|discriminate].
    + revert Hitems. apply Forall_impl. tauto.
Qed.

Lemma machine_info_round_trip_witness :
  exists line,
    machine_info !"Trackers" (Many [AStr !"http://a/x"; AInt 7])
    = line ++ [newline]
    /\ ~ In newline line
    /\ split_on tab line
       = !"Trackers" :: map atom_text [AStr !"http://a/x"; AInt 7].
Proof.
  apply (machine_info_round_trip !"Trackers" [AStr !"http://a/x"; AInt 7]).
  - repeat constructor; vm_compute; intuition discriminate.
  - discriminate.
Defined.

(** Without that condition the output is not one line: an item with a
    newline in it is printed as it is. *)
Lemma machine_info_newline_item :
  machine_info !"k" (Many [AStr (!"a" ++ newline :: !"b")])
  = !"k" ++ tab :: !"a" ++ newline :: !"b" ++ [newline].
Proof. reflexivity. Qed.

(* ================================================================= *)
(** ** The progress bar *)

Section ProgressBar.

Context {char : Type}.
Variables (space ellipsis left_edge right_edge : char).
Variables (reverse_on reverse_off : list char).

Lemma fit_text_cases (text : list char) :
  fit_text space ellipsis text
  = if List.length text <=? 80
    then text ++ repeat space (80 - List.length text)
    else firstn 40 text ++ [ellipsis] ++ skipn (List.length text - 39) text.
Proof.
  unfold fit_text, PROGRESS_BAR_WIDTH.
  destruct (80 <? List.length text) eqn:Elong.
  - apply Nat.ltb_lt in Elong.
    destruct (List.length text <=? 80) eqn:Ele;
      [apply Nat.leb_le in Ele; lia|].
    unfold slice_to, slice_from, slice_index.
    change (80 / 2) with 40. change (80 - 40 - 1) with 39.
    change (Z.of_nat 40 <? 0)%Z with false.
    change (- Z.of_nat 39 <? 0)%Z with true. cbv beta iota.
    rewrite Nat2Z.id.
    replace (Nat.min 40 (List.length text)) with 40 by lia.
    replace (Z.to_nat (Z.max 0 (Z.of_nat (List.length text) + - Z.of_nat 39)))
      with (List.length text - 39) by lia.
    reflexivity.
  - apply Nat.ltb_ge in Elong.
    destruct (List.length text <=? 80) eqn:Ele;
      [|apply Nat.leb_gt in Ele; lia].
    destruct (List.length text <? 80) eqn:Eshort; [reflexivity|].
    apply Nat.ltb_ge in Eshort.
    replace (80 - List.length text) with 0 by lia.
    simpl. now rewrite app_nil_r.
Qed.

Lemma fit_text_length (text : list char) :
  List.length (fit_text space ellipsis text) = 80.
Proof.
  rewrite fit_text_cases.
  destruct (List.length text <=? 80) eqn:Ele.
  - apply Nat.leb_le in Ele. rewrite length_app, repeat_length. lia.
  - apply Nat.leb_gt in Ele.
    rewrite !length_app, length_firstn, length_skipn.
    change (List.length [ellipsis]) with 1. lia.
Qed.

(** X23. The assertion of the progress bar never fails: a text of any
    length is brought to eighty characters, a longer one by keeping its
    first forty and its last thirty-nine around an ellipsis.  The bar is
    that text between the two edges, with the escape sequences around
    its first [pos] characters; a position outside the bar is read as
    Python reads the end of a slice. *)
Theorem progress_bar_fits (text : list char) (pos : Z) :
  exists a b,
    _progress_bar space ellipsis left_edge right_edge
      reverse_on reverse_off text pos
    = Some ([left_edge] ++ reverse_on ++ a ++ reverse_off ++ b
            ++ [right_edge])
    /\ List.length a = highlighted pos
    /\ List.length a + List.length b = 80
    /\ a ++ b
       = if List.length text <=? 80
         then text ++ repeat space (80 - List.length text)
         else firstn 40 text ++ [ellipsis]
              ++ skipn (List.length text - 39) text.
Proof.
  pose proof (fit_text_length text) as Hlen.
  exists (slice_to (fit_text space ellipsis text) pos),
         (slice_from (fit_text space ellipsis text) pos).
  split; [|split; [|split]].
  - unfold _progress_bar, PROGRESS_BAR_WIDTH.
    rewrite Hlen, Nat.eqb_refl. now app_norm.
  - unfold slice_to, slice_index, highlighted, PROGRESS_BAR_WIDTH.
    rewrite length_firstn, Hlen.
    destruct (pos <? 0)%Z eqn:E; lia.
  - rewrite <- length_app. unfold slice_to, slice_from.
    now rewrite firstn_skipn.
  - unfold slice_to, slice_from. rewrite firstn_skipn.
    apply fit_text_cases.
Qed.

End ProgressBar.

(* ================================================================= *)
(** ** Overwriting the output file *)

Lemma human_dialog_ignored (question : str) (ignored keys : list str)
  (out : list output) :
  Forall (fun key => dialog_answer key = None) ignored ->
  human_dialog question (ignored ++ keys) out
  = human_dialog question keys
      (out ++ flat_map (fun _ => dialog_turn question) ignored).
Proof.
  intros H. revert out.
  induction H as [|key ignored Hkey _ IH]; intros out; simpl.
  - now rewrite app_nil_r.
  - rewrite Hkey, IH. f_equal. unfold dialog_turn. now app_norm.
Qed.

(** X24. The dialog of the human formatter takes the answer of the
    first key that has one.  It asks once for that key and once for each
    key before it, and leaves the keys after it unread. *)
Theorem dialog_first_recognised_key
  (question : str) (ignored : list str) (key : str) (rest : list str)
  (answer : bool) :
  Forall (fun k => dialog_answer k = None) ignored ->
  dialog_answer key = Some answer ->
  dialog_yes_no HumanFormatter question (ignored ++ key :: rest)
  = Returned answer rest
      (flat_map (fun _ => dialog_turn question) (ignored ++ [key])).
Proof.
  intros Hign Hkey. unfold dialog_yes_no.
  rewrite (human_dialog_ignored question ignored (key :: rest) [] Hign).
  simpl. rewrite Hkey. f_equal.
  rewrite flat_map_app. simpl. unfold dialog_turn. now app_norm.
Qed.

Lemma dialog_first_recognised_key_witness :
  dialog_yes_no HumanFormatter !"out.torrent: Overwrite file?"
    ([!"x"; !" "] ++ !"Y" :: [!"n"])
  = Returned true [!"n"]
      (flat_map (fun _ => dialog_turn !"out.torrent: Overwrite file?")
         ([!"x"; !" "] ++ [!"Y"])).
Proof.
  apply (dialog_first_recognised_key !"out.torrent: Overwrite file?"
           [!"x"; !" "] !"Y" [!"n"] true).
  - repeat constructor.
  - reflexivity.
Defined.

(** X25. Without a key that has an answer the dialog of the human
    formatter does not return: it asks again after every key, and waits
    for the next one. *)
Theorem dialog_waits_for_an_answer (question : str) (keys : list str) :
  Forall (fun k => dialog_answer k = None) keys ->
  dialog_yes_no HumanFormatter question keys
  = Waiting (flat_map (fun _ => dialog_turn question) keys
             ++ [Printed (question ++ !" [y|n] ")]).
Proof.
  intros H. unfold dialog_yes_no.
  rewrite <- (app_nil_r keys) at 1.
  rewrite (human_dialog_ignored question keys [] [] H). reflexivity.
Qed.

Lemma dialog_waits_for_an_answer_witness :
  dialog_yes_no HumanFormatter !"Overwrite file?" [!"j"; !"yes"]
  = Waiting (flat_map (fun _ => dialog_turn !"Overwrite file?")
               [!"j"; !"yes"]
             ++ [Printed (!"Overwrite file?" ++ !" [y|n] ")]).
Proof.
  apply (dialog_waits_for_an_answer !"Overwrite file?" [!"j"; !"yes"]).
  repeat constructor.
Defined.

Lemma human_dialog_first_answer (question : str) (keys : list str)
  (out : list output) :
  match first_answer keys with
  | Some answer =>
      exists keys' out', human_dialog question keys out
                         = Returned answer keys' out'
  | None => exists out', human_dialog question keys out = Waiting out'
  end.
Proof.
  revert out. induction keys as [|key keys IH]; intros out; simpl.
  - eauto.
  - destruct (dialog_answer key); [eauto|]. apply IH.
Qed.

Lemma dialog_answer_yes (key : str) :
  dialog_answer key = Some true <-> key = !"y" \/ key = !"Y".
Proof.
  unfold dialog_answer.
  destruct (str_eqb key !"y") eqn:Ey; [apply str_eqb_eq in Ey|];
    [simpl; intuition|].
  destruct (str_eqb key !"Y") eqn:EY; [apply str_eqb_eq in EY|];
    [simpl; intuition|].
  apply str_eqb_neq in Ey, EY. simpl.
  split; [|intuition].
  destruct (_ || _); discriminate.
Qed.

Lemma first_answer_some (keys : list str) (answer : bool) :
  first_answer keys = Some answer
  <-> exists ignored key rest,
        keys = ignored ++ key :: rest
        /\ Forall (fun k => dialog_answer k = None) ignored
        /\ dialog_answer key = Some answer.
Proof.
  split.
  - induction keys as [|k keys IH]; simpl; [discriminate|].
    destruct (dialog_answer k) as [b|] eqn:E.
    + intros [= ->]. exists [], k, keys. auto.
    + intros H. destruct (IH H) as [ignored [key [rest [-> [Hi Hk]]]]].
      exists (k :: ignored), key, rest. auto.
  - intros [ignored [key [rest [-> [Hi Hk]]]]].
    induction Hi as [|k ignored Hk' _ IH]; simpl.
    + now rewrite Hk.
    + now rewrite Hk'.
Qed.

(** X26. [check_output_file_exists] returns, which lets the torrent
    file be written, in these cases only: no torrent file is wanted;
    nothing is at the path; or a file that is not a directory is there
    and either [yes] is set or the formatter is the human one and the
    first key with an answer is [y] or [Y]. *)
Theorem check_output_file_exists_returns_iff
  (cfg : dict) (fmt : formatter) (filepath : str) (exists_ isdir : bool)
  (keys : list str) (notorrent yes : bool) :
  cfg_flag cfg !"notorrent" = inr notorrent ->
  cfg_flag cfg !"yes" = inr yes ->
  (exists keys' out,
      check_output_file_exists cfg fmt filepath exists_ isdir keys
      = Returned tt keys' out)
  <-> notorrent = true \/ exists_ = false
      \/ (isdir = false
          /\ (yes = true
              \/ (fmt = HumanFormatter
                  /\ exists ignored key rest,
                       keys = ignored ++ key :: rest
                       /\ Forall (fun k => dialog_answer k = None) ignored
                       /\ (key = !"y" \/ key = !"Y")))).
Proof.
  intros Hnt Hyes.
  assert (Hfirst : first_answer keys = Some true
                   <-> exists ignored key rest,
                         keys = ignored ++ key :: rest
                         /\ Forall (fun k => dialog_answer k = None) ignored
                         /\ (key = !"y" \/ key = !"Y")).
  { rewrite first_answer_some. split;
      intros [ignored [key [rest [E [Hi Hk]]]]];
      exists ignored, key, rest; (split; [exact E|split; [exact Hi|]]);
      now apply dialog_answer_yes. }
  rewrite <- Hfirst. clear Hfirst.
  unfold check_output_file_exists. rewrite Hnt.
  destruct notorrent; [split; eauto|].
  destruct exists_; [|split; eauto].
  destruct isdir.
  { split; [intros [? [? ?]]; discriminate|].
    intros [?|[?|[? _]]]; discriminate. }
  rewrite Hyes. destruct yes; [split; eauto 6|].
  destruct fmt; unfold dialog_yes_no.
  - pose proof (human_dialog_first_answer
                  (filepath ++ !": Overwrite file?") keys []) as H.
    destruct (first_answer keys) as [[|]|].
    + destruct H as [keys' [out' ->]]. split; eauto 8.
    + destruct H as [keys' [out' ->]].
      split; [intros [? [? ?]]; discriminate|].
      intros [?|[?|[_ [?|[_ ?]]]]]; discriminate.
    + destruct H as [out' ->].
      split; [intros [? [? ?]]; discriminate|].
      intros [?|[?|[_ [?|[_ ?]]]]]; discriminate.
  - split; [intros [? [? ?]]; discriminate|].
    intros [?|[?|[_ [?|[? _]]]]]; discriminate.
Qed.

Lemma check_output_file_exists_returns_iff_witness :
  (exists keys' out,
      check_output_file_exists ui_cfg HumanFormatter !"out.torrent"
        true false [!"q"; !"y"; !"n"]
      = Returned tt keys' out)
  <-> false = true \/ true = false
      \/ (false = false
          /\ (false = true
              \/ (HumanFormatter = HumanFormatter
                  /\ exists ignored key rest,
                       [!"q"; !"y"; !"n"] = ignored ++ key :: rest
                       /\ Forall (fun k => dialog_answer k = None) ignored
                       /\ (key = !"y" \/ key = !"Y")))).
Proof.
  apply (check_output_file_exists_returns_iff ui_cfg HumanFormatter
           !"out.torrent" true false [!"q"; !"y"; !"n"] false false);
    reflexivity.
Defined.

(** X27. With [nohuman] set, or with neither [human] set nor a terminal
    on the standard output, the formatter is the machine one, and then
    an existing path is never overwritten unless [yes] is set: the check
    raises [WriteError] without asking, reading no key and printing
    nothing. *)
Theorem machine_mode_never_asks
  (cfg : dict) (isatty : bool) (filepath : str) (isdir : bool)
  (keys : list str) :
  cfg_flag cfg !"nohuman" = inr true
  \/ (cfg_flag cfg !"nohuman" = inr false
      /\ cfg_flag cfg !"human" = inr false /\ isatty = false) ->
  cfg_flag cfg !"notorrent" = inr false ->
  cfg_flag cfg !"yes" = inr false ->
  exists fmt,
    ui_formatter cfg isatty = inr fmt
    /\ check_output_file_exists cfg fmt filepath true isdir keys
       = Raised (WriteError
                   (filepath ++ (if isdir then !": Is a directory"
                                 else !": File exists")))
           keys [].
Proof.
  intros Hmode Hnt Hyes. exists MachineFormatter. split.
  - unfold ui_formatter, _human.
    destruct Hmode as [-> | [-> [-> ->]]]; reflexivity.
  - unfold check_output_file_exists. rewrite Hnt.
    destruct isdir; [reflexivity|]. now rewrite Hyes.
Qed.

Lemma machine_mode_never_asks_witness :
  exists fmt,
    ui_formatter ui_cfg false = inr fmt
    /\ check_output_file_exists ui_cfg fmt !"out.torrent" true false [!"y"]
       = Raised (WriteError (!"out.torrent" ++ !": File exists")) [!"y"] [].
Proof.
  apply (machine_mode_never_asks ui_cfg false !"out.torrent" false [!"y"]).
  - right. repeat split; reflexivity.
  - reflexivity.
  - reflexivity.
Defined.
